(** * NIO::Selector: the reactor of ext/nio4r/selector.c

    A shallow embedding of the C extension.  The C struct
    [struct NIO_Selector], the instance variables of the Ruby object that
    wraps it and the part of the process the selector acts on (the wakeup
    pipe, the Monitor objects, the calls made to libev and to the kernel)
    are one explicit [state]; every C function is a function on that state.

    What the file does not own is kept to what selector.c uses of it:
    - libev is driven through [ev_loop (loop, EVLOOP_ONESHOT)]; the watchers
      that fire during one such call are an input ([slice]);
    - the block passed to [select] is the caller's code: each [rb_yield]
      is recorded in the log [yielded].  The functions that take
      [block_given : bool] are the code run with a block that returns; the
      functions named [..._with] take the block's behaviour as an input and
      cover a block that raises.  A block that calls back into the selector
      is not modelled;
    - the kernel's pipe: [NIO_Selector_wakeup] is the write that finds room
      in the pipe, [NIO_Selector_wakeup_in] takes the capacity of the pipe
      and covers the write that finds it full;
    - a [double] is a rational number ([Q]): only comparisons with zero,
      one addition and one subtraction are made on timeouts. *)

From Stdlib Require Import ZArith QArith Lia.
From stdpp Require Import gmap strings list.
From Equations Require Import Equations.

Local Open Scope Z_scope.

(** ** Ruby values *)

(** Identity of a Ruby object (an IO, a Monitor, a Thread, a Symbol). *)
Definition obj := nat.

Inductive VALUE : Type :=
| Qnil
| Qtrue
| Qfalse
| Fixnum (z : Z)
| Float (q : Q)
| Obj (o : obj)
| Ary (xs : list obj).

Inductive exception : Type :=
| ArgumentError (msg : string)
| IOError (msg : string)
| SystemCallError (msg : string)
| TypeError
| ThreadError.

(** [NUM2DBL]: numbers convert, everything else raises [TypeError]. *)
Definition NUM2DBL (v : VALUE) : option Q :=
  match v with
  | Fixnum z => Some (inject_Z z)
  | Float q => Some q
  | _ => None
  end.

(** [x < 0] on doubles. *)
Definition dbl_neg (q : Q) : bool := (Qnum q <? 0)%Z.

(** [x >= y] on doubles. *)
Definition dbl_ge (x y : Q) : bool := Qle_bool y x.

(** ** C integers

    [ready_count] and [result] are C [int]s; [int_wrap] is the value an
    [int] holds after an arithmetic result [z]. *)
Definition INT_MAX : Z := 2147483647.

Definition int_wrap (z : Z) : Z := (z + 2147483648) mod 4294967296 - 2147483648.

(** ** What libev reports

    A watcher that fires during one [ev_loop] call: the [ev_io] of a
    Monitor (with the [revents] libev passes to its callback), the [ev_io]
    on the read end of the wakeup pipe, or the timer. *)
Inductive ev_event : Type :=
| EvIO (m : obj) (revents : Z)
| EvWakeup
| EvTimer.

(** ** Calls that leave the selector

    Every call into libev or the kernel is appended to [trace], with the
    loop handle or file descriptor it was given and what came back. *)
Inductive effect : Type :=
| E_pipe (fd0 fd1 : Z)
| E_fcntl (fd : Z)
| E_ev_loop_new (loop : Z)
| E_ev_io_start (loop : Z) (fd : Z)
| E_ev_loop_destroy (loop : Z)
| E_ev_loop (loop : Z) (fired : list ev_event)   (* ev_loop(loop, EVLOOP_ONESHOT) *)
| E_ev_now (loop : Z) (now : Q)
| E_ev_timer_again (loop : Z) (repeat : Q)
| E_ev_timer_start (loop : Z) (repeat : Q)
| E_ev_timer_stop (loop : Z)
| E_close (fd : Z)
| E_write (fd : Z) (len : nat)
| E_read (fd : Z) (got : Z).

(** ** Monitors *)

(** Modelled from the spec: NIO::Monitor is implemented in monitor.c, and
    this file embeds selector.c only.  The spec gives a Monitor as
    "constructible from (handle, interests, owning_selector)", exposing
    "close(cancel_pending: bool)" and accepting "readiness-flag updates".
    [mon_revents] is the field selector.c itself writes; [mon_close_calls]
    lists the arguments of the close calls the Monitor received.  The
    owning selector is the one selector of the [state]. *)
Record NIO_Monitor : Type := mkMonitor {
  mon_io : obj;
  mon_interests : obj;
  mon_revents : Z;
  mon_close_calls : list bool
}.

(** Modelled from the spec: [NIO::Monitor.new(io, interests, selector)],
    "constructible from (handle, interests, owning_selector)". *)
Definition Monitor_new (io interests : obj) : NIO_Monitor :=
  {| mon_io := io; mon_interests := interests;
     mon_revents := 0; mon_close_calls := [] |}.

(** Modelled from the spec: [monitor.close(cancel_pending)]; the call is
    recorded on the Monitor. *)
Definition Monitor_close (cancel_pending : bool) (m : NIO_Monitor) : NIO_Monitor :=
  {| mon_io := mon_io m; mon_interests := mon_interests m;
     mon_revents := mon_revents m;
     mon_close_calls := mon_close_calls m ++ [cancel_pending] |}.

(** [monitor_data->revents = revents] *)
Definition Monitor_set_revents (revents : Z) (m : NIO_Monitor) : NIO_Monitor :=
  {| mon_io := mon_io m; mon_interests := mon_interests m;
     mon_revents := revents;
     mon_close_calls := mon_close_calls m |}.

(** ** The selector *)

(** [struct NIO_Selector].  [closed] and [selecting] are [int]s that only
    ever hold 0 or 1; [ready_array] is [Qnil] ([None]) or an Array. *)
Record NIO_Selector : Type := mkSelector {
  ev_loop : Z;
  wakeup_reader : Z;
  wakeup_writer : Z;
  closed : bool;
  selecting : bool;
  ready_count : Z;
  ready_array : option (list obj)
}.

Record state : Type := mkState {
  sel : NIO_Selector;
  (* instance variables of the Ruby object *)
  selectables : gmap obj obj;          (* Hash: io => monitor *)
  lock : option obj;                   (* the Mutex, by the thread owning it *)
  lock_holder : option obj;            (* Qnil or a Thread *)
  (* the rest of the process *)
  monitors : gmap obj NIO_Monitor;     (* the Monitor objects created so far *)
  pipe : nat;                          (* bytes waiting in the wakeup pipe,
                                          whose capacity is not modelled *)
  yielded : list obj;                  (* monitors handed to the block *)
  trace : list effect
}.

Definition with_sel (f : NIO_Selector → NIO_Selector) (st : state) : state :=
  {| sel := f (sel st); selectables := selectables st; lock := lock st;
     lock_holder := lock_holder st; monitors := monitors st; pipe := pipe st;
     yielded := yielded st; trace := trace st |}.

Definition set_ev_loop (l : Z) (s : NIO_Selector) : NIO_Selector :=
  {| ev_loop := l;
     wakeup_reader := wakeup_reader s; wakeup_writer := wakeup_writer s;
     closed := closed s; selecting := selecting s;
     ready_count := ready_count s; ready_array := ready_array s |}.

Definition set_closed (b : bool) (s : NIO_Selector) : NIO_Selector :=
  {| ev_loop := ev_loop s;
     wakeup_reader := wakeup_reader s; wakeup_writer := wakeup_writer s;
     closed := b; selecting := selecting s;
     ready_count := ready_count s; ready_array := ready_array s |}.

Definition set_selecting (b : bool) (s : NIO_Selector) : NIO_Selector :=
  {| ev_loop := ev_loop s;
     wakeup_reader := wakeup_reader s; wakeup_writer := wakeup_writer s;
     closed := closed s; selecting := b;
     ready_count := ready_count s; ready_array := ready_array s |}.

Definition set_ready_count (n : Z) (s : NIO_Selector) : NIO_Selector :=
  {| ev_loop := ev_loop s;
     wakeup_reader := wakeup_reader s; wakeup_writer := wakeup_writer s;
     closed := closed s; selecting := selecting s;
     ready_count := n; ready_array := ready_array s |}.

Definition set_ready_array (a : option (list obj)) (s : NIO_Selector) : NIO_Selector :=
  {| ev_loop := ev_loop s;
     wakeup_reader := wakeup_reader s; wakeup_writer := wakeup_writer s;
     closed := closed s; selecting := selecting s;
     ready_count := ready_count s; ready_array := a |}.

Definition set_selectables (h : gmap obj obj) (st : state) : state :=
  {| sel := sel st; selectables := h; lock := lock st;
     lock_holder := lock_holder st; monitors := monitors st; pipe := pipe st;
     yielded := yielded st; trace := trace st |}.

Definition set_lock (l : option obj) (st : state) : state :=
  {| sel := sel st; selectables := selectables st; lock := l;
     lock_holder := lock_holder st; monitors := monitors st; pipe := pipe st;
     yielded := yielded st; trace := trace st |}.

Definition set_lock_holder (t : option obj) (st : state) : state :=
  {| sel := sel st; selectables := selectables st; lock := lock st;
     lock_holder := t; monitors := monitors st; pipe := pipe st;
     yielded := yielded st; trace := trace st |}.

Definition set_monitors (ms : gmap obj NIO_Monitor) (st : state) : state :=
  {| sel := sel st; selectables := selectables st; lock := lock st;
     lock_holder := lock_holder st; monitors := ms; pipe := pipe st;
     yielded := yielded st; trace := trace st |}.

Definition set_pipe (n : nat) (st : state) : state :=
  {| sel := sel st; selectables := selectables st; lock := lock st;
     lock_holder := lock_holder st; monitors := monitors st; pipe := n;
     yielded := yielded st; trace := trace st |}.

(** [rb_yield(monitor)] with a block that returns. *)
Definition rb_yield (m : obj) (st : state) : state :=
  {| sel := sel st; selectables := selectables st; lock := lock st;
     lock_holder := lock_holder st; monitors := monitors st; pipe := pipe st;
     yielded := yielded st ++ [m]; trace := trace st |}.

Definition emit (e : effect) (st : state) : state :=
  {| sel := sel st; selectables := selectables st; lock := lock st;
     lock_holder := lock_holder st; monitors := monitors st; pipe := pipe st;
     yielded := yielded st; trace := trace st ++ [e] |}.

(** ** How a call ends *)

Inductive result (A : Type) : Type :=
| Return (a : A) (st : state)      (* the function returned [a] *)
| Raise (e : exception) (st : state)   (* rb_raise unwound the call *)
| NoValue (st : state)     (* control reached the end of a non-void function *)
| Abort                    (* an assert() failed *)
| Wait (st : state).       (* the thread is parked: on the Mutex or in libev *)

Arguments Return {A} a st.
Arguments Raise {A} e st.
Arguments NoValue {A} st.
Arguments Abort {A}.
Arguments Wait {A} st.

(** ** Allocation *)

(** The struct as [NIO_Selector_allocate] fills it in, once [pipe()] gave
    [fd0] and [fd1] and [ev_loop_new] gave [loop]. *)
Definition allocated (fd0 fd1 loop : Z) : state :=
  {| sel := {| ev_loop := loop;
               wakeup_reader := fd0; wakeup_writer := fd1;
               closed := false; selecting := false;
               ready_count := 0; ready_array := None |};
     selectables := ∅; lock := None; lock_holder := None;
     monitors := ∅; pipe := 0%nat; yielded := [];
     trace := [E_pipe fd0 fd1; E_fcntl fd0; E_ev_loop_new loop;
               E_ev_io_start loop fd0] |}.

(** [fds] is what [pipe()] gives and [fcntl_ok] whether the read end could
    be made non-blocking; either system call failing makes [rb_sys_fail]
    raise. *)
Definition NIO_Selector_allocate (fds : option (Z * Z)) (fcntl_ok : bool) (loop : Z)
    : exception + state :=
  match fds with
  | None => inl (SystemCallError "pipe")
  | Some (fd0, fd1) =>
      if fcntl_ok then inr (allocated fd0 fd1 loop)
      else inl (SystemCallError "fcntl")
  end.

(** [initialize] installs an empty Hash and a new Mutex; [lock_holder] is
    not set, and reads as nil. *)
Definition NIO_Selector_initialize (st : state) : state :=
  set_lock None (set_selectables ∅ st).

(** [NIO::Selector.new] when both system calls succeed. *)
Definition NIO_Selector_new (fd0 fd1 loop : Z) : state :=
  NIO_Selector_initialize (allocated fd0 fd1 loop).

(** ** Shutdown and close *)

Definition NIO_Selector_shutdown (st : state) : state :=
  let st1 :=
    if ev_loop (sel st) =? 0 then st
    else with_sel (set_ev_loop 0) (emit (E_ev_loop_destroy (ev_loop (sel st))) st) in
  if closed (sel st1) then st1
  else
    let st2 := emit (E_close (wakeup_reader (sel st1))) st1 in
    let st3 := emit (E_close (wakeup_writer (sel st2))) st2 in
    with_sel (set_closed true) st3.

Definition NIO_Selector_close (st : state) : result VALUE :=
  Return Qnil (NIO_Selector_shutdown st).

Definition NIO_Selector_closed (st : state) : result VALUE :=
  Return (if closed (sel st) then Qtrue else Qfalse) st.

(** ** Wakeup *)

(** [wakeup] when the pipe has room for the byte: [write] returns at once. *)
Definition NIO_Selector_wakeup (st : state) : result VALUE :=
  if closed (sel st) then Raise (IOError "selector is closed") st
  else Return Qnil (set_pipe (S (pipe st)) (emit (E_write (wakeup_writer (sel st)) 1) st)).

(** [while(read(selector->wakeup_reader, buffer, 128) > 0);] on the
    non-blocking read end: a read takes up to 128 of the [n] waiting bytes
    and returns how many; with nothing left it returns -1 (EAGAIN). *)
Equations? drain (fd : Z) (n : nat) (tr : list effect) : nat * list effect by wf n lt :=
  drain fd 0 tr := (0%nat, tr ++ [E_read fd (-1)]);
  drain fd (S m) tr :=
    drain fd (S m - Nat.min (S m) 128) (tr ++ [E_read fd (Z.of_nat (Nat.min (S m) 128))]).
Proof. lia. Qed.

Definition drain_wakeup_pipe (st : state) : state :=
  let r := drain (wakeup_reader (sel st)) (pipe st) (trace st) in
  {| sel := sel st; selectables := selectables st; lock := lock st;
     lock_holder := lock_holder st; monitors := monitors st; pipe := fst r;
     yielded := yielded st; trace := snd r |}.

Definition NIO_Selector_wakeup_callback (st : state) : state :=
  drain_wakeup_pipe (with_sel (set_selecting false) st).

(** The timer callback has an empty body. *)
Definition NIO_Selector_timeout_callback (st : state) : state := st.

(** ** The Monitor callback

    [assert(selector != 0)] reads the back pointer of the Monitor; every
    Monitor of this state was built by [register] with the selector, so the
    pointer is set.  [assert(selector->ready_array != Qnil)] is the [None]
    case: the process aborts. *)
Definition NIO_Selector_monitor_callback
    (block_given : bool) (m : obj) (revents : Z) (st : state) : option state :=
  let st1 := with_sel (set_ready_count (int_wrap (ready_count (sel st) + 1))) st in
  let st2 := set_monitors (alter (Monitor_set_revents revents) m (monitors st1)) st1 in
  if block_given then Some (rb_yield m st2)
  else
    match ready_array (sel st2) with
    | None => None
    | Some a => Some (with_sel (set_ready_array (Some (a ++ [m]))) st2)
    end.

(** ** One run of the event loop

    What one [ev_loop (loop, EVLOOP_ONESHOT)] call does is not the
    selector's choice: [sl_events] lists the watchers libev fires during
    the call, in the order it invokes their callbacks, and [sl_now] is the
    value of [ev_now] once the call is over. *)
Record slice : Type := mkSlice {
  sl_events : list ev_event;
  sl_now : Q
}.

Definition callback (block_given : bool) (e : ev_event) (st : state) : option state :=
  match e with
  | EvIO m revents => NIO_Selector_monitor_callback block_given m revents st
  | EvWakeup => Some (NIO_Selector_wakeup_callback st)
  | EvTimer => Some (NIO_Selector_timeout_callback st)
  end.

Fixpoint dispatch (block_given : bool) (evs : list ev_event) (st : state) : option state :=
  match evs with
  | [] => Some st
  | e :: rest =>
      match callback block_given e st with
      | Some st' => dispatch block_given rest st'
      | None => None
      end
  end.

Definition ev_loop_oneshot (block_given : bool) (sl : slice) (st : state) : option state :=
  dispatch block_given (sl_events sl)
    (emit (E_ev_loop (ev_loop (sel st)) (sl_events sl)) st).

(** The environment of one [select]: the clock when the call starts and
    what the successive [ev_loop] calls report.  An [ev_loop] call made
    after the last recorded slice does not come back. *)
Record engine : Type := mkEngine {
  ev_start : Q;
  ev_slices : list slice
}.

(** The file builds in two ways.  With HAVE_RB_THREAD_BLOCKING_REGION the
    thread blocks inside libev, which arms the timeout as a timer.  With
    neither that macro nor HAVE_RB_THREAD_ALONE it polls every
    [BUSYWAIT_INTERVAL] and checks the clock itself.  (With only
    HAVE_RB_THREAD_ALONE the polling branch names [started_at], which that
    configuration does not declare.) *)
Inductive build : Type :=
| HAVE_RB_THREAD_BLOCKING_REGION
| GREEN_THREADS.

Definition BUSYWAIT_INTERVAL : Q := 1 # 100.

(** [while(selector->selecting && !selector->ready_count) { ... }] *)
Fixpoint busy_wait (block_given : bool) (timeout : VALUE) (started_at : Q)
    (slices : list slice) (st : state) : result unit :=
  if selecting (sel st) && (ready_count (sel st) =? 0) then
    match slices with
    | [] => Wait st
    | sl :: rest =>
        match ev_loop_oneshot block_given sl st with
        | None => Abort
        | Some st1 =>
            (* rb_thread_schedule() runs the other green threads *)
            match timeout with
            | Qnil => busy_wait block_given timeout started_at rest st1
            | _ =>
                let st2 := emit (E_ev_now (ev_loop (sel st1)) (sl_now sl)) st1 in
                match NUM2DBL timeout with
                | None => Raise TypeError st2
                | Some t =>
                    if dbl_ge (sl_now sl - started_at)%Q t then Return tt st2
                    else busy_wait block_given timeout started_at rest st2
                end
            end
        end
    end
  else Return tt st.

(** [result = selector->ready_count;
     selector->selecting = selector->ready_count = 0;] *)
Definition run_finish (st : state) : result Z :=
  Return (ready_count (sel st))
         (with_sel (set_selecting false) (with_sel (set_ready_count 0) st)).

Definition NIO_Selector_run (cfg : build) (block_given : bool) (timeout : VALUE)
    (env : engine) (st : state) : result Z :=
  let st0 := with_sel (set_selecting true) st in
  match cfg with
  | HAVE_RB_THREAD_BLOCKING_REGION =>
      let armed :=
        match timeout with
        | Qnil => Return tt (emit (E_ev_timer_stop (ev_loop (sel st0))) st0)
        | _ =>
            match NUM2DBL timeout with
            | None => Raise TypeError st0
            | Some t =>
                Return tt (emit (E_ev_timer_again (ev_loop (sel st0)) (t + (1 # 10000))%Q) st0)
            end
        end in
      match armed with
      | Return _ st1 =>
          match ev_slices env with
          | [] => Wait st1
          | sl :: _ =>
              match ev_loop_oneshot block_given sl st1 with
              | None => Abort
              | Some st2 => run_finish st2
              end
          end
      | Raise e s => Raise e s
      | NoValue s => NoValue s
      | Abort => Abort
      | Wait s => Wait s
      end
  | GREEN_THREADS =>
      let st1 := emit (E_ev_now (ev_loop (sel st0)) (ev_start env)) st0 in
      let st2 := emit (E_ev_timer_start (ev_loop (sel st1)) BUSYWAIT_INTERVAL) st1 in
      match busy_wait block_given timeout (ev_start env) (ev_slices env) st2 with
      | Return _ st3 => run_finish (emit (E_ev_timer_stop (ev_loop (sel st3))) st3)
      | Raise e s => Raise e s
      | NoValue s => NoValue s
      | Abort => Abort
      | Wait s => Wait s
      end
  end.

(** ** select *)

Definition NIO_Selector_select_synchronized (cfg : build) (block_given : bool)
    (timeout : VALUE) (env : engine) (st : state) : result VALUE :=
  let st0 := if block_given then st else with_sel (set_ready_array (Some [])) st in
  match NIO_Selector_run cfg block_given timeout env st0 with
  | Return ready st1 =>
      if 0 <? ready then
        if block_given then Return (Fixnum ready) st1
        else
          Return (match ready_array (sel st1) with Some a => Ary a | None => Qnil end)
                 (with_sel (set_ready_array None) st1)
      else Return Qnil (with_sel (set_ready_array None) st1)
  | Raise e s => Raise e s
  | NoValue s => NoValue s
  | Abort => Abort
  | Wait s => Wait s
  end.

(** ** The reentrant lock

    The Mutex is Ruby's: [lock] parks the caller while another thread owns
    it and raises [ThreadError] when the caller owns it already; [unlock]
    raises [ThreadError] unless the caller owns it. *)
Definition Mutex_lock (me : obj) (st : state) : result unit :=
  match lock st with
  | None => Return tt (set_lock (Some me) st)
  | Some owner => if decide (owner = me) then Raise ThreadError st else Wait st
  end.

Definition Mutex_unlock (me : obj) (st : state) : result unit :=
  match lock st with
  | Some owner =>
      if decide (owner = me) then Return tt (set_lock None st)
      else Raise ThreadError st
  | None => Raise ThreadError st
  end.

(** [NIO_Selector_unlock] has no [return] statement. *)
Definition NIO_Selector_unlock (me : obj) (st : state) : result VALUE :=
  match Mutex_unlock me (set_lock_holder None st) with
  | Return _ st1 => NoValue st1
  | Raise e s => Raise e s
  | NoValue s => NoValue s
  | Abort => Abort
  | Wait s => Wait s
  end.

(** [rb_ensure (body, ..., ensure, ...)]: [ensure] runs whether [body]
    returns or raises, its value is dropped, and an exception it raises
    replaces the outcome of [body]. *)
Definition rb_ensure (body ensure : state → result VALUE) (st : state) : result VALUE :=
  match body st with
  | Return v st1 =>
      match ensure st1 with
      | Return _ st2 | NoValue st2 => Return v st2
      | r => r
      end
  | Raise e st1 =>
      match ensure st1 with
      | Return _ st2 | NoValue st2 => Raise e st2
      | r => r
      end
  | NoValue st1 =>
      match ensure st1 with
      | Return _ st2 | NoValue st2 => NoValue st2
      | r => r
      end
  | Abort => Abort
  | Wait st1 => Wait st1
  end.

Definition NIO_Selector_synchronize (me : obj) (func : state → result VALUE)
    (st : state) : result VALUE :=
  if decide (lock_holder st ≠ Some me) then
    match Mutex_lock me st with
    | Return _ st1 =>
        rb_ensure func (NIO_Selector_unlock me) (set_lock_holder (Some me) st1)
    | Raise e s => Raise e s
    | NoValue s => NoValue s
    | Abort => Abort
    | Wait s => Wait s
    end
  else
    (* func(args); and the closing brace of the function *)
    match func st with
    | Return _ st1 => NoValue st1
    | r => r
    end.

Definition NIO_Selector_select (cfg : build) (me : obj) (block_given : bool)
    (timeout : VALUE) (env : engine) (st : state) : result VALUE :=
  let go := NIO_Selector_synchronize me
              (NIO_Selector_select_synchronized cfg block_given timeout env) st in
  match timeout with
  | Qnil => go
  | _ =>
      match NUM2DBL timeout with
      | None => Raise TypeError st
      | Some t =>
          if dbl_neg t then Raise (ArgumentError "time interval must be positive") st
          else go
      end
  end.

(** ** The registration table *)

Definition NIO_Selector_register_synchronized (io interests : obj) (st : state)
    : result VALUE :=
  match selectables st !! io with
  | Some _ => Raise (ArgumentError "this IO is already registered with selector") st
  | None =>
      (* rb_class_new_instance(3, monitor_args, cNIO_Monitor) *)
      let m := fresh (dom (monitors st)) in
      let st1 := set_monitors (<[m := Monitor_new io interests]> (monitors st)) st in
      Return (Obj m) (set_selectables (<[io := m]> (selectables st1)) st1)
  end.

Definition NIO_Selector_register (me io interests : obj) (st : state) : result VALUE :=
  NIO_Selector_synchronize me (NIO_Selector_register_synchronized io interests) st.

Definition NIO_Selector_deregister_synchronized (io : obj) (st : state) : result VALUE :=
  match selectables st !! io with
  | Some m =>
      let st1 := set_selectables (delete io (selectables st)) st in
      (* rb_funcall(monitor, rb_intern("close"), 1, Qfalse) *)
      Return (Obj m) (set_monitors (alter (Monitor_close false) m (monitors st1)) st1)
  | None => Return Qnil st
  end.

Definition NIO_Selector_deregister (me io : obj) (st : state) : result VALUE :=
  NIO_Selector_synchronize me (NIO_Selector_deregister_synchronized io) st.

Definition NIO_Selector_is_registered (io : obj) (st : state) : result VALUE :=
  (* rb_funcall(selectables, rb_intern("has_key?"), 1, io) *)
  Return (match selectables st !! io with Some _ => Qtrue | None => Qfalse end) st.

(** ** The public methods, as one type of calls *)

Inductive call : Type :=
| call_register (io interests : obj)
| call_deregister (io : obj)
| call_is_registered (io : obj)
| call_select (block_given : bool) (timeout : VALUE) (env : engine)
| call_wakeup
| call_close
| call_closed.

Definition perform (cfg : build) (me : obj) (c : call) (st : state) : result VALUE :=
  match c with
  | call_register io interests => NIO_Selector_register me io interests st
  | call_deregister io => NIO_Selector_deregister me io st
  | call_is_registered io => NIO_Selector_is_registered io st
  | call_select block_given timeout env =>
      NIO_Selector_select cfg me block_given timeout env st
  | call_wakeup => NIO_Selector_wakeup st
  | call_close => NIO_Selector_close st
  | call_closed => NIO_Selector_closed st
  end.

(** ** Vocabulary of the statements *)

(** [P] holds of the state a call leaves behind, however the call ended
    (an aborted process leaves none). *)
Definition ends_in {A} (P : state → Prop) (r : result A) : Prop :=
  match r with
  | Return _ s | Raise _ s | NoValue s | Wait s => P s
  | Abort => True
  end.

(** [P] holds of the state when control is back in the caller. *)
Definition back_in {A} (P : state → Prop) (r : result A) : Prop :=
  match r with
  | Return _ s | Raise _ s | NoValue s => P s
  | Abort | Wait _ => True
  end.

(** The Monitors among the watchers that fired, in firing order. *)
Fixpoint io_monitors (evs : list ev_event) : list obj :=
  match evs with
  | [] => []
  | EvIO m _ :: rest => m :: io_monitors rest
  | _ :: rest => io_monitors rest
  end.

(** How often the wakeup watcher is among the watchers that fired. *)
Fixpoint wakeup_fires (evs : list ev_event) : nat :=
  match evs with
  | [] => 0%nat
  | EvWakeup :: rest => S (wakeup_fires rest)
  | _ :: rest => wakeup_fires rest
  end.

(** The Monitors that fired over all the [ev_loop] calls of a trace. *)
Fixpoint fired_monitors (tr : list effect) : list obj :=
  match tr with
  | [] => []
  | E_ev_loop _ evs :: rest => io_monitors evs ++ fired_monitors rest
  | _ :: rest => fired_monitors rest
  end.

(** How often the wakeup callback ran over all the [ev_loop] calls of a
    trace: the interruptions by [wakeup]. *)
Fixpoint interruptions (tr : list effect) : nat :=
  match tr with
  | [] => 0%nat
  | E_ev_loop _ evs :: rest => (wakeup_fires evs + interruptions rest)%nat
  | _ :: rest => interruptions rest
  end.

(** The timers armed with a timeout over a trace. *)
Fixpoint armed_timers (tr : list effect) : list Q :=
  match tr with
  | [] => []
  | E_ev_timer_again _ q :: rest => q :: armed_timers rest
  | _ :: rest => armed_timers rest
  end.

(** A [read] on a descriptor. *)
Definition is_read (e : effect) : Prop :=
  match e with E_read _ _ => True | _ => False end.

(** The [ev_loop] calls of a trace, by the handle they were given. *)
Fixpoint loop_runs (tr : list effect) : list Z :=
  match tr with
  | [] => []
  | E_ev_loop l _ :: rest => l :: loop_runs rest
  | _ :: rest => loop_runs rest
  end.



(** Between [st] and [st'] the Monitors [ms] fired, were counted and were
    reported, in this order. *)
Definition run_post (block_given : bool) (st st' : state) (ms : list obj) : Prop :=
  fired_monitors (trace st') = fired_monitors (trace st) ++ ms ∧
  ready_count (sel st') = ready_count (sel st) + Z.of_nat (length ms) ∧
  (if block_given then
     yielded st' = yielded st ++ ms ∧
     ready_array (sel st') = ready_array (sel st)
   else
     yielded st' = yielded st ∧
     ready_array (sel st') = (λ a, a ++ ms) <$> ready_array (sel st)).

(** All the Monitors an engine has in store for one call. *)
Definition total_io (slices : list slice) : list obj :=
  concat (map (λ sl, io_monitors (sl_events sl)) slices).

(** The selector between two [select] calls: nothing counted, no Array
    pending. *)
Definition idle (st : state) : Prop :=
  ready_count (sel st) = 0 ∧ ready_array (sel st) = None.

(** The Mutex is owned by the thread recorded as holder. *)
Definition lock_consistent (st : state) : Prop := lock st = lock_holder st.

(** The fields [register], [deregister] and [registered?] have no
    business with. *)
Definition same_selector_fields (st st' : state) : Prop :=
  closed (sel st') = closed (sel st) ∧
  selecting (sel st') = selecting (sel st) ∧
  ready_count (sel st') = ready_count (sel st) ∧
  ready_array (sel st') = ready_array (sel st) ∧
  wakeup_reader (sel st') = wakeup_reader (sel st) ∧
  wakeup_writer (sel st') = wakeup_writer (sel st) ∧
  ev_loop (sel st') = ev_loop (sel st) ∧
  pipe st' = pipe st ∧
  yielded st' = yielded st ∧
  trace st' = trace st.

(** What the callbacks of an [ev_loop] call leave alone. *)
Definition same_outside_loop (st st' : state) : Prop :=
  closed (sel st') = closed (sel st) ∧
  ev_loop (sel st') = ev_loop (sel st) ∧
  wakeup_reader (sel st') = wakeup_reader (sel st) ∧
  wakeup_writer (sel st') = wakeup_writer (sel st) ∧
  selectables st' = selectables st ∧
  lock st' = lock st ∧
  lock_holder st' = lock_holder st.

(** A slice after which the polling loop stops: the wakeup watcher or a
    Monitor fired, or the timeout has elapsed on the clock. *)
Definition slice_ends (timeout : VALUE) (started_at : Q) (sl : slice) : Prop :=
  EvWakeup ∈ sl_events sl ∨
  io_monitors (sl_events sl) ≠ [] ∨
  ∃ t, timeout ≠ Qnil ∧ NUM2DBL timeout = Some t ∧
       dbl_ge (sl_now sl - started_at)%Q t = true.

(** The engine lets the call come back. *)
Definition comes_back (cfg : build) (timeout : VALUE) (env : engine) : Prop :=
  match cfg with
  | HAVE_RB_THREAD_BLOCKING_REGION => ev_slices env ≠ []
  | GREEN_THREADS => Exists (slice_ends timeout (ev_start env)) (ev_slices env)
  end.

(** A timeout [select] lets through: nil or a number. *)
Definition timeout_ok (timeout : VALUE) : Prop :=
  timeout = Qnil ∨ is_Some (NUM2DBL timeout).

(** [n] successive [wakeup] calls. *)
Fixpoint wakeups (n : nat) (st : state) : state :=
  match n with
  | O => st
  | S k =>
      match NIO_Selector_wakeup st with
      | Return _ st' => wakeups k st'
      | _ => st
      end
  end.

(** Modelled from the spec: libev (ext/libev) is not part of the sources at
    hand.  The spec has the run loop register "the read endpoint with the
    notification engine for read-readiness", the engine "invokes callbacks
    for ready sources", and the behaviour is "level-triggered": during one
    [ev_loop] call the wakeup watcher fires exactly when bytes wait in the
    pipe.  [ios] are the Monitors the kernel reports ready and [timer]
    tells whether the timer expired. *)
Definition libev_reports (ios : list (obj * Z)) (timer : bool) (st : state)
    : list ev_event :=
  (if (0 <? pipe st)%nat then [EvWakeup] else []) ++
  map (λ p, EvIO p.1 p.2) ios ++
  (if timer then [EvTimer] else []).


(** The state a call leaves behind ([st] when the process is gone). *)
Definition after {A} (r : result A) (st : state) : state :=
  match r with
  | Return _ s | Raise _ s | NoValue s | Wait s => s
  | Abort => st
  end.

(** The three methods on the registration table. *)
Definition table_call (c : call) : Prop :=
  match c with
  | call_register _ _ | call_deregister _ | call_is_registered _ => True
  | _ => False
  end.

(** ** Sample states *)

(** A selector as [NIO::Selector.new] leaves it: pipe descriptors 3 and 4,
    loop handle 1000. *)
Definition sample_open : state := NIO_Selector_new 3 4 1000.

(** The same after IO 10 was registered with interests 1. *)
Definition sample_registered : state :=
  after (NIO_Selector_register_synchronized 10%nat 1%nat sample_open) sample_open.

(** The same after [close]. *)
Definition sample_closed : state := NIO_Selector_shutdown sample_open.

(** [sample_registered] while thread 7 is inside the critical section. *)
Definition sample_held : state :=
  set_lock_holder (Some 7%nat) (set_lock (Some 7%nat) sample_registered).

(** ** The finalizer

    [NIO_Selector_free] shuts the selector down and frees the struct: what
    is left of it is the record of the calls made. *)
Definition NIO_Selector_free (st : state) : list effect :=
  trace (NIO_Selector_shutdown st).

(** ** Sequences of calls *)

(** Calls made one after the other, each by the thread named with it; a
    call that does not come back leaves the state it is parked in. *)
Fixpoint run_calls (cfg : build) (cs : list (obj * call)) (st : state) : state :=
  match cs with
  | [] => st
  | (me, c) :: rest => run_calls cfg rest (after (perform cfg me c st) st)
  end.

(** The handles registered after a sequence of calls, from those
    registered before: what [register] and [deregister] are meant to do
    to the set. *)
Fixpoint net_registered (cs : list (obj * call)) (ios : gset obj) : gset obj :=
  match cs with
  | [] => ios
  | (_, call_register io _) :: rest => net_registered rest ({[io]} ∪ ios)
  | (_, call_deregister io) :: rest => net_registered rest (ios ∖ {[io]})
  | _ :: rest => net_registered rest ios
  end.

(** Every Monitor in the table exists, was built for the handle it is
    stored under, and was never closed by the selector. *)
Definition table_wf (st : state) : Prop :=
  ∀ io m, selectables st !! io = Some m →
    ∃ mon, monitors st !! m = Some mon ∧ mon_io mon = io ∧ mon_close_calls mon = [].

(** The descriptors closed over a trace, in order. *)
Fixpoint closes (tr : list effect) : list Z :=
  match tr with
  | [] => []
  | E_close fd :: rest => fd :: closes rest
  | _ :: rest => closes rest
  end.

(** The loops destroyed over a trace, in order. *)
Fixpoint destroys (tr : list effect) : list Z :=
  match tr with
  | [] => []
  | E_ev_loop_destroy l :: rest => l :: destroys rest
  | _ :: rest => destroys rest
  end.

(** The bytes taken out of descriptors over a trace. *)
Fixpoint bytes_read (tr : list effect) : nat :=
  match tr with
  | [] => 0%nat
  | E_read _ got :: rest => (Z.to_nat got + bytes_read rest)%nat
  | _ :: rest => bytes_read rest
  end.

(** A [read] of at most 128 bytes on [fd]. *)
Definition is_read_of (fd : Z) (e : effect) : Prop :=
  match e with E_read fd' got => fd' = fd ∧ got ≤ 128 | _ => False end.

(** The selector of [NIO_Selector_new fd0 fd1 loop] holds its resources
    while open and has given each of them up once when closed. *)
Definition resources_once (fd0 fd1 loop : Z) (st : state) : Prop :=
  wakeup_reader (sel st) = fd0 ∧ wakeup_writer (sel st) = fd1 ∧
  if closed (sel st) then
    ev_loop (sel st) = 0 ∧ closes (trace st) = [fd0; fd1] ∧ destroys (trace st) = [loop]
  else
    ev_loop (sel st) = loop ∧ closes (trace st) = [] ∧ destroys (trace st) = [].

(** A slice that leaves the polling loop running: nothing fired and the
    timeout, if any, has not elapsed. *)
Definition slice_quiet (timeout : VALUE) (started_at : Q) (sl : slice) : Prop :=
  wakeup_fires (sl_events sl) = 0%nat ∧
  io_monitors (sl_events sl) = [] ∧
  ∀ t, NUM2DBL timeout = Some t → dbl_ge (sl_now sl - started_at)%Q t = false.


(** The lock as a thread that is inside the critical section holds it. *)
Definition held_by (me : obj) (st : state) : state :=
  set_lock_holder (Some me) (set_lock (Some me) st).

(** The lock given back. *)
Definition released (st : state) : state :=
  set_lock None (set_lock_holder None st).

(** A body that leaves the lock alone. *)
Definition keeps_lock (func : state → result VALUE) : Prop :=
  ∀ s, ends_in (λ s', lock s' = lock s ∧ lock_holder s' = lock_holder s) (func s).

(** A call into libev made while a [select] runs. *)
Definition is_engine_call (e : effect) : Prop :=
  match e with
  | E_ev_loop _ _ | E_ev_now _ _ | E_ev_timer_again _ _
  | E_ev_timer_start _ _ | E_ev_timer_stop _ => True
  | _ => False
  end.

(** [n] polls went by between [s] and [s1] and nothing happened. *)
Definition polled (n : nat) (s s1 : state) : Prop :=
  selecting (sel s1) = selecting (sel s) ∧
  ready_count (sel s1) = ready_count (sel s) ∧
  ready_array (sel s1) = ready_array (sel s) ∧
  ev_loop (sel s1) = ev_loop (sel s) ∧
  loop_runs (trace s1) = loop_runs (trace s) ++ replicate n (ev_loop (sel s)) ∧
  pipe s1 = pipe s ∧
  yielded s1 = yielded s.

(** What [select] answers when the Monitors [ms] fired. *)
Definition select_value (block_given : bool) (ms : list obj) : VALUE :=
  match ms with
  | [] => Qnil
  | _ => if block_given then Fixnum (Z.of_nat (length ms)) else Ary ms
  end.

(** The table of [s] is the table of [st], and the Monitors of [s] are
    those of [st], for the same handles and interests and with the same
    close calls received. *)
Definition same_registrations (st s : state) : Prop :=
  selectables s = selectables st ∧
  ∀ m, Monitor_set_revents 0 <$> monitors s !! m
       = Monitor_set_revents 0 <$> monitors st !! m.

(** The methods other than [register] and [deregister]. *)
Definition not_table_update (c : call) : Prop :=
  match c with
  | call_register _ _ | call_deregister _ => False
  | _ => True
  end.

(** ** A block that raises

    What a block does with the Monitor it is handed is the caller's
    business: [body m] is [None] when it returns and [Some e] when it
    raises [e].  The exception unwinds out of the callback, of libev and of
    [NIO_Selector_run], up to the [rb_ensure] of
    [NIO_Selector_synchronize]: nothing on the way catches it. *)
Definition block : Type := obj → option exception.

(** [NIO_Selector_monitor_callback] when [rb_block_given_p()] holds. *)
Definition NIO_Selector_monitor_callback_with
    (body : block) (m : obj) (revents : Z) (st : state) : result unit :=
  let st1 := with_sel (set_ready_count (int_wrap (ready_count (sel st) + 1))) st in
  let st2 := set_monitors (alter (Monitor_set_revents revents) m (monitors st1)) st1 in
  (* rb_yield(monitor) *)
  match body m with
  | None => Return tt (rb_yield m st2)
  | Some e => Raise e (rb_yield m st2)
  end.

Definition callback_with (body : block) (e : ev_event) (st : state) : result unit :=
  match e with
  | EvIO m revents => NIO_Selector_monitor_callback_with body m revents st
  | EvWakeup => Return tt (NIO_Selector_wakeup_callback st)
  | EvTimer => Return tt (NIO_Selector_timeout_callback st)
  end.

Fixpoint dispatch_with (body : block) (evs : list ev_event) (st : state) : result unit :=
  match evs with
  | [] => Return tt st
  | e :: rest =>
      match callback_with body e st with
      | Return _ st' => dispatch_with body rest st'
      | r => r
      end
  end.

Definition ev_loop_oneshot_with (body : block) (sl : slice) (st : state) : result unit :=
  dispatch_with body (sl_events sl)
    (emit (E_ev_loop (ev_loop (sel st)) (sl_events sl)) st).

Fixpoint busy_wait_with (body : block) (timeout : VALUE) (started_at : Q)
    (slices : list slice) (st : state) : result unit :=
  if selecting (sel st) && (ready_count (sel st) =? 0) then
    match slices with
    | [] => Wait st
    | sl :: rest =>
        match ev_loop_oneshot_with body sl st with
        | Return _ st1 =>
            match timeout with
            | Qnil => busy_wait_with body timeout started_at rest st1
            | _ =>
                let st2 := emit (E_ev_now (ev_loop (sel st1)) (sl_now sl)) st1 in
                match NUM2DBL timeout with
                | None => Raise TypeError st2
                | Some t =>
                    if dbl_ge (sl_now sl - started_at)%Q t then Return tt st2
                    else busy_wait_with body timeout started_at rest st2
                end
            end
        | r => r
        end
    end
  else Return tt st.

Definition NIO_Selector_run_with (cfg : build) (body : block) (timeout : VALUE)
    (env : engine) (st : state) : result Z :=
  let st0 := with_sel (set_selecting true) st in
  match cfg with
  | HAVE_RB_THREAD_BLOCKING_REGION =>
      let armed :=
        match timeout with
        | Qnil => Return tt (emit (E_ev_timer_stop (ev_loop (sel st0))) st0)
        | _ =>
            match NUM2DBL timeout with
            | None => Raise TypeError st0
            | Some t =>
                Return tt (emit (E_ev_timer_again (ev_loop (sel st0)) (t + (1 # 10000))%Q) st0)
            end
        end in
      match armed with
      | Return _ st1 =>
          match ev_slices env with
          | [] => Wait st1
          | sl :: _ =>
              match ev_loop_oneshot_with body sl st1 with
              | Return _ st2 => run_finish st2
              | Raise e s => Raise e s
              | NoValue s => NoValue s
              | Abort => Abort
              | Wait s => Wait s
              end
          end
      | Raise e s => Raise e s
      | NoValue s => NoValue s
      | Abort => Abort
      | Wait s => Wait s
      end
  | GREEN_THREADS =>
      let st1 := emit (E_ev_now (ev_loop (sel st0)) (ev_start env)) st0 in
      let st2 := emit (E_ev_timer_start (ev_loop (sel st1)) BUSYWAIT_INTERVAL) st1 in
      match busy_wait_with body timeout (ev_start env) (ev_slices env) st2 with
      | Return _ st3 => run_finish (emit (E_ev_timer_stop (ev_loop (sel st3))) st3)
      | Raise e s => Raise e s
      | NoValue s => NoValue s
      | Abort => Abort
      | Wait s => Wait s
      end
  end.

(** [NIO_Selector_select_synchronized] when [rb_block_given_p()] holds: no
    Array is made. *)
Definition NIO_Selector_select_synchronized_with (cfg : build) (body : block)
    (timeout : VALUE) (env : engine) (st : state) : result VALUE :=
  match NIO_Selector_run_with cfg body timeout env st with
  | Return ready st1 =>
      if 0 <? ready then Return (Fixnum ready) st1
      else Return Qnil (with_sel (set_ready_array None) st1)
  | Raise e s => Raise e s
  | NoValue s => NoValue s
  | Abort => Abort
  | Wait s => Wait s
  end.

Definition NIO_Selector_select_with (cfg : build) (me : obj) (body : block)
    (timeout : VALUE) (env : engine) (st : state) : result VALUE :=
  let go := NIO_Selector_synchronize me
              (NIO_Selector_select_synchronized_with cfg body timeout env) st in
  match timeout with
  | Qnil => go
  | _ =>
      match NUM2DBL timeout with
      | None => Raise TypeError st
      | Some t =>
          if dbl_neg t then Raise (ArgumentError "time interval must be positive") st
          else go
      end
  end.



(** ** A full pipe

    [NIO_Selector_allocate] makes only the read end non-blocking
    ([fcntl(fds[0], F_SETFL, O_NONBLOCK)]), so [write] on the write end of
    a pipe that holds [capacity] bytes parks the caller until a reader has
    made room. *)

(** [write(selector->wakeup_writer, "\0", 1)]: [None] when the caller is
    parked. *)
Definition write_byte (capacity : nat) (st : state) : option state :=
  if (pipe st <? capacity)%nat then
    Some (set_pipe (S (pipe st)) (emit (E_write (wakeup_writer (sel st)) 1) st))
  else None.

Definition NIO_Selector_wakeup_in (capacity : nat) (st : state) : result VALUE :=
  if closed (sel st) then Raise (IOError "selector is closed") st
  else
    match write_byte capacity st with
    | Some st1 => Return Qnil st1
    | None => Wait st
    end.

(** [n] threads call [wakeup], one after the other, before the loop runs:
    the state they leave and the number of callers parked in [write]. *)
Fixpoint wakeups_in (capacity n : nat) (st : state) : state * nat :=
  match n with
  | O => (st, O)
  | S k =>
      match NIO_Selector_wakeup_in capacity st with
      | Wait st1 => let (st2, parked) := wakeups_in capacity k st1 in (st2, S parked)
      | r => wakeups_in capacity k (after r st)
      end
  end.

(** The kernel lets parked writers go on while the pipe has room: the state
    and the number of writers still parked. *)
Fixpoint resume_writes (capacity parked : nat) (st : state) : state * nat :=
  match parked with
  | O => (st, O)
  | S k =>
      match write_byte capacity st with
      | Some st1 => resume_writes capacity k st1
      | None => (st, parked)
      end
  end.

(** * Properties *)

(** ** Arithmetic on [int] *)

Lemma int_wrap_small z : -2147483648 ≤ z ≤ INT_MAX → int_wrap z = z.
Proof.
  unfold int_wrap, INT_MAX. intros Hz.
  rewrite Z.mod_small by lia. lia.
Qed.

(** ** Traces *)

Lemma fired_monitors_app tr1 tr2 :
  fired_monitors (tr1 ++ tr2) = fired_monitors tr1 ++ fired_monitors tr2.
Proof.
  induction tr1 as [|e tr1 IH]; [done|].
  destruct e; simpl; rewrite ?IH, ?app_assoc; done.
Qed.

Lemma interruptions_app tr1 tr2 :
  interruptions (tr1 ++ tr2) = (interruptions tr1 + interruptions tr2)%nat.
Proof.
  induction tr1 as [|e tr1 IH]; [done|].
  destruct e; simpl; rewrite ?IH; lia.
Qed.

Lemma armed_timers_app tr1 tr2 :
  armed_timers (tr1 ++ tr2) = armed_timers tr1 ++ armed_timers tr2.
Proof.
  induction tr1 as [|e tr1 IH]; [done|].
  destruct e; simpl; rewrite ?IH; done.
Qed.

Lemma loop_runs_app tr1 tr2 :
  loop_runs (tr1 ++ tr2) = loop_runs tr1 ++ loop_runs tr2.
Proof.
  induction tr1 as [|e tr1 IH]; [done|].
  destruct e; simpl; rewrite ?IH; done.
Qed.

Lemma fired_monitors_reads rs : Forall is_read rs → fired_monitors rs = [].
Proof. induction 1 as [|e rs He _ IH]; [done|]. by destruct e. Qed.

Lemma interruptions_reads rs : Forall is_read rs → interruptions rs = 0%nat.
Proof. induction 1 as [|e rs He _ IH]; [done|]. by destruct e. Qed.

Lemma armed_timers_reads rs : Forall is_read rs → armed_timers rs = [].
Proof. induction 1 as [|e rs He _ IH]; [done|]. by destruct e. Qed.

Lemma loop_runs_reads rs : Forall is_read rs → loop_runs rs = [].
Proof. induction 1 as [|e rs He _ IH]; [done|]. by destruct e. Qed.

Lemma io_monitors_app evs1 evs2 :
  io_monitors (evs1 ++ evs2) = io_monitors evs1 ++ io_monitors evs2.
Proof.
  induction evs1 as [|e evs1 IH]; [done|].
  destruct e; simpl; rewrite ?IH; done.
Qed.

Lemma wakeup_fires_app evs1 evs2 :
  wakeup_fires (evs1 ++ evs2) = (wakeup_fires evs1 + wakeup_fires evs2)%nat.
Proof.
  induction evs1 as [|e evs1 IH]; [done|].
  destruct e; simpl; rewrite ?IH; done.
Qed.

Lemma wakeup_fires_pos evs : EvWakeup ∈ evs ↔ (0 < wakeup_fires evs)%nat.
Proof.
  induction evs as [|e evs IH]; simpl.
  - split; [by intros ?%elem_of_nil | lia].
  - rewrite elem_of_cons, IH.
    destruct e; simpl; split; try lia; auto; by intros [?|?].
Qed.

(** ** Draining the pipe *)

Lemma drain_empties fd n tr : (drain fd n tr).1 = 0%nat.
Proof. funelim (drain fd n tr); simp drain; done. Qed.

Lemma drain_reads fd n tr :
  ∃ rs, (drain fd n tr).2 = tr ++ rs ∧ Forall is_read rs.
Proof.
  funelim (drain fd n tr); simp drain.
  - eexists; split; [done|]. by repeat constructor.
  - destruct H as (rs & -> & Hrs).
    eexists; split; [by rewrite <- app_assoc|]. by constructor.
Qed.



Lemma wakeup_callback_trace st :
  ∃ rs, trace (NIO_Selector_wakeup_callback st) = trace st ++ rs ∧ Forall is_read rs.
Proof. apply drain_reads. Qed.

(** ** One callback, one [ev_loop] call *)

Lemma same_outside_loop_refl st : same_outside_loop st st.
Proof. by repeat split. Qed.

Lemma same_outside_loop_trans st1 st2 st3 :
  same_outside_loop st1 st2 → same_outside_loop st2 st3 → same_outside_loop st1 st3.
Proof.
  unfold same_outside_loop. intros (?&?&?&?&?&?&?) (?&?&?&?&?&?&?).
  repeat split; congruence.
Qed.

Ltac callback_cases H e blk :=
  destruct e as [?m ?r| |]; simpl in H;
  [ unfold NIO_Selector_monitor_callback in H; simpl in H; destruct blk;
    [ | match type of H with
        | context [ready_array ?s] => destruct (ready_array s) eqn:?; [|discriminate H]
        end ]
  | | ];
  injection H as <-.

Lemma callback_outside blk e st st' :
  callback blk e st = Some st' → same_outside_loop st st'.
Proof. intros H. callback_cases H e blk; by repeat split. Qed.

Lemma callback_trace blk e st st' :
  callback blk e st = Some st' →
  ∃ rs, trace st' = trace st ++ rs ∧ Forall is_read rs.
Proof.
  intros H. callback_cases H e blk;
    try (exists []; by rewrite app_nil_r).
  apply wakeup_callback_trace.
Qed.

Lemma callback_count blk e st st' :
  callback blk e st = Some st' →
  0 ≤ ready_count (sel st) →
  ready_count (sel st) + Z.of_nat (length (io_monitors [e])) ≤ INT_MAX →
  ready_count (sel st') = ready_count (sel st) + Z.of_nat (length (io_monitors [e])).
Proof.
  intros H H0 Hmax.
  callback_cases H e blk; unfold NIO_Selector_timeout_callback; simpl in *;
    rewrite ?int_wrap_small; unfold INT_MAX in *; lia.
Qed.

Lemma fmap_app_nil (o : option (list obj)) : (λ a, a ++ []) <$> o = o.
Proof. destruct o; simpl; by rewrite ?app_nil_r. Qed.

Lemma callback_reported blk e st st' :
  callback blk e st = Some st' →
  if blk then
    yielded st' = yielded st ++ io_monitors [e] ∧
    ready_array (sel st') = ready_array (sel st)
  else
    yielded st' = yielded st ∧
    ready_array (sel st') = (λ a, a ++ io_monitors [e]) <$> ready_array (sel st).
Proof.
  destruct e as [m r| |]; simpl.
  - unfold NIO_Selector_monitor_callback; simpl. destruct blk.
    + by intros [= <-].
    + destruct (ready_array (sel st)) as [a|] eqn:E; [|done]. by intros [= <-].
  - intros [= <-]. destruct blk; simpl; by rewrite ?app_nil_r, ?fmap_app_nil.
  - intros [= <-]. unfold NIO_Selector_timeout_callback.
    destruct blk; simpl; by rewrite ?app_nil_r, ?fmap_app_nil.
Qed.

Lemma callback_wakeup_state blk e st st' :
  callback blk e st = Some st' →
  selecting (sel st') = (if (wakeup_fires [e] =? 0)%nat then selecting (sel st) else false) ∧
  pipe st' = (if (wakeup_fires [e] =? 0)%nat then pipe st else 0%nat).
Proof.
  intros H. callback_cases H e blk; simpl; try done.
  split; [done | apply drain_empties].
Qed.

Lemma callback_defined blk e st :
  (blk = false → is_Some (ready_array (sel st))) →
  ∃ st', callback blk e st = Some st' ∧
         (blk = false → is_Some (ready_array (sel st'))).
Proof.
  intros Hra. destruct e as [m r| |]; simpl; [|by eauto..].
  unfold NIO_Selector_monitor_callback; simpl. destruct blk; [by eauto|].
  destruct (Hra eq_refl) as [a ->]. eauto.
Qed.

Lemma dispatch_outside blk evs st st' :
  dispatch blk evs st = Some st' → same_outside_loop st st'.
Proof.
  revert st. induction evs as [|e evs IH]; simpl; intros st H.
  - injection H as <-. apply same_outside_loop_refl.
  - destruct (callback blk e st) as [st1|] eqn:He; [|done].
    eapply same_outside_loop_trans; [by eapply callback_outside | by apply IH].
Qed.

Lemma dispatch_trace blk evs st st' :
  dispatch blk evs st = Some st' →
  ∃ rs, trace st' = trace st ++ rs ∧ Forall is_read rs.
Proof.
  revert st. induction evs as [|e evs IH]; simpl; intros st H.
  - injection H as <-. exists []. by rewrite app_nil_r.
  - destruct (callback blk e st) as [st1|] eqn:He; [|done].
    destruct (callback_trace _ _ _ _ He) as (rs1 & E1 & F1).
    destruct (IH _ H) as (rs2 & E2 & F2).
    exists (rs1 ++ rs2). split; [by rewrite E2, E1, app_assoc|].
    by apply Forall_app.
Qed.

Lemma dispatch_defined blk evs st :
  (blk = false → is_Some (ready_array (sel st))) →
  ∃ st', dispatch blk evs st = Some st'.
Proof.
  revert st. induction evs as [|e evs IH]; simpl; intros st Hra; [by eauto|].
  destruct (callback_defined blk e st Hra) as (st1 & -> & Hra1). by apply IH.
Qed.

Lemma dispatch_count blk evs st st' :
  dispatch blk evs st = Some st' →
  0 ≤ ready_count (sel st) →
  ready_count (sel st) + Z.of_nat (length (io_monitors evs)) ≤ INT_MAX →
  ready_count (sel st') = ready_count (sel st) + Z.of_nat (length (io_monitors evs)).
Proof.
  revert st. induction evs as [|e evs IH]; cbn [dispatch]; intros st H H0 Hmax.
  - injection H as <-. simpl. lia.
  - destruct (callback blk e st) as [st1|] eqn:He; [|done].
    assert (length (io_monitors (e :: evs))
            = (length (io_monitors [e]) + length (io_monitors evs))%nat) as E.
    { change (e :: evs) with ([e] ++ evs). by rewrite io_monitors_app, length_app. }
    rewrite E in *.
    pose proof (callback_count _ _ _ _ He H0 ltac:(lia)) as E1.
    rewrite (IH _ H) by lia. lia.
Qed.

Lemma dispatch_reported blk evs st st' :
  dispatch blk evs st = Some st' →
  if blk then
    yielded st' = yielded st ++ io_monitors evs ∧
    ready_array (sel st') = ready_array (sel st)
  else
    yielded st' = yielded st ∧
    ready_array (sel st') = (λ a, a ++ io_monitors evs) <$> ready_array (sel st).
Proof.
  revert st. induction evs as [|e evs IH]; cbn [dispatch]; intros st H.
  - injection H as <-. destruct blk; simpl; by rewrite ?app_nil_r, ?fmap_app_nil.
  - destruct (callback blk e st) as [st1|] eqn:He; [|done].
    pose proof (callback_reported _ _ _ _ He) as H1.
    pose proof (IH _ H) as H2.
    change (io_monitors (e :: evs)) with (io_monitors ([e] ++ evs)).
    rewrite io_monitors_app.
    destruct blk.
    + destruct H1 as [E1 E1'], H2 as [E2 E2'].
      by rewrite E2, E1, E2', E1', app_assoc.
    + destruct H1 as [E1 E1'], H2 as [E2 E2']. rewrite E2, E1, E2', E1'.
      split; [done|].
      destruct (ready_array (sel st)); simpl; by rewrite ?app_assoc.
Qed.

Lemma dispatch_wakeup_state blk evs st st' :
  dispatch blk evs st = Some st' →
  selecting (sel st') = (if (wakeup_fires evs =? 0)%nat then selecting (sel st) else false) ∧
  pipe st' = (if (wakeup_fires evs =? 0)%nat then pipe st else 0%nat).
Proof.
  revert st. induction evs as [|e evs IH]; cbn [dispatch]; intros st H.
  - by injection H as <-.
  - destruct (callback blk e st) as [st1|] eqn:He; [|done].
    destruct (callback_wakeup_state _ _ _ _ He) as [E1 E2].
    destruct (IH _ H) as [E3 E4]. rewrite E3, E4, E1, E2.
    destruct e; simpl; by destruct (wakeup_fires evs).
Qed.

Lemma ends_in_impl {A} (P Q : state → Prop) (r : result A) :
  (∀ s, P s → Q s) → ends_in P r → ends_in Q r.
Proof. destruct r; simpl; auto. Qed.

Lemma ev_loop_oneshot_outside blk sl st st' :
  ev_loop_oneshot blk sl st = Some st' → same_outside_loop st st'.
Proof.
  unfold ev_loop_oneshot. intros H%dispatch_outside.
  eapply same_outside_loop_trans; [|exact H]. by repeat split.
Qed.

(** ** The run loop leaves the table, the lock and the resources alone *)

Lemma busy_wait_outside blk timeout t0 slices st :
  ends_in (same_outside_loop st) (busy_wait blk timeout t0 slices st).
Proof.
  revert st. induction slices as [|sl slices IH]; intros st; simpl;
    destruct (selecting (sel st) && (ready_count (sel st) =? 0));
    try apply same_outside_loop_refl.
  destruct (ev_loop_oneshot blk sl st) as [st1|] eqn:E1; [|done].
  apply ev_loop_oneshot_outside in E1.
  assert (∀ s, same_outside_loop st1 s → same_outside_loop st s) as Hst1
    by (intros s; by apply same_outside_loop_trans).
  assert (∀ s, same_outside_loop (emit (E_ev_now (ev_loop (sel st1)) (sl_now sl)) st1) s
               → same_outside_loop st s) as Hst2.
  { intros s Hs. apply Hst1. eapply same_outside_loop_trans; [|exact Hs].
    by repeat split. }
  destruct timeout; simpl;
    try (eapply ends_in_impl; [exact Hst1 | apply IH]);
    try (apply Hst2, same_outside_loop_refl);
    match goal with
    | |- context [dbl_ge ?a ?b] => destruct (dbl_ge a b); simpl
    end;
    try (apply Hst2, same_outside_loop_refl);
    (eapply ends_in_impl; [exact Hst2 | apply IH]).
Qed.

Lemma run_finish_outside st :
  ends_in (same_outside_loop st) (run_finish st).
Proof. by repeat split. Qed.

Lemma NIO_Selector_run_outside cfg blk timeout env st :
  ends_in (same_outside_loop st) (NIO_Selector_run cfg blk timeout env st).
Proof.
  unfold NIO_Selector_run. destruct cfg.
  - assert (∀ e, ends_in (same_outside_loop st)
      match ev_slices env with
      | [] => Wait (emit e (with_sel (set_selecting true) st))
      | sl :: _ =>
          match ev_loop_oneshot blk sl (emit e (with_sel (set_selecting true) st)) with
          | Some st2 => run_finish st2
          | None => Abort
          end
      end) as Hgo.
    { intros e. destruct (ev_slices env) as [|sl ?]; simpl; [by repeat split|].
      destruct (ev_loop_oneshot _ _ _) as [st2|] eqn:E2; [|done].
      apply ev_loop_oneshot_outside in E2.
      eapply same_outside_loop_trans; [|eapply same_outside_loop_trans; [exact E2|]];
        by repeat split. }
    destruct timeout; simpl; try by repeat split.
    all: apply Hgo.
  - match goal with
    | |- context [busy_wait ?b ?t ?s ?sl ?x] =>
        pose proof (busy_wait_outside b t s sl x) as Hb;
        destruct (busy_wait b t s sl x) as [[] st3|e st3|st3| |st3]
    end; simpl in *; try done.
    all: eapply same_outside_loop_trans; [|eapply same_outside_loop_trans; [exact Hb|]];
      by repeat split.
Qed.

Lemma select_synchronized_outside cfg blk timeout env st :
  ends_in (same_outside_loop st)
          (NIO_Selector_select_synchronized cfg blk timeout env st).
Proof.
  unfold NIO_Selector_select_synchronized.
  match goal with
  | |- context [NIO_Selector_run ?c ?b ?t ?e ?x] =>
      pose proof (NIO_Selector_run_outside c b t e x) as Hr;
      destruct (NIO_Selector_run c b t e x) as [ready st1|e' st1|st1| |st1]
  end; simpl in *; try done.
  - assert (same_outside_loop st st1) as H1.
    { eapply same_outside_loop_trans; [|exact Hr]. destruct blk; by repeat split. }
    destruct (0 <? ready); [destruct blk|]; simpl; try done;
      (eapply same_outside_loop_trans; [exact H1|]; by repeat split).
  - eapply same_outside_loop_trans; [|exact Hr]. destruct blk; by repeat split.
  - eapply same_outside_loop_trans; [|exact Hr]. destruct blk; by repeat split.
  - eapply same_outside_loop_trans; [|exact Hr]. destruct blk; by repeat split.
Qed.

(** ** The lock wrapper keeps what its body keeps *)

Lemma unlock_ends_in (P : state → Prop) me st :
  (∀ s l, P s → P (set_lock l s)) →
  (∀ s t, P s → P (set_lock_holder t s)) →
  P st → ends_in P (NIO_Selector_unlock me st).
Proof.
  intros Hl Hh HP. unfold NIO_Selector_unlock, Mutex_unlock; simpl.
  destruct (lock st) as [owner|]; [destruct (decide (owner = me))|]; simpl; auto.
Qed.

Lemma rb_ensure_ends_in (P : state → Prop) body ensure st :
  (∀ s, P s → ends_in P (body s)) →
  (∀ s, P s → ends_in P (ensure s)) →
  P st → ends_in P (rb_ensure body ensure st).
Proof.
  intros Hb He HP. unfold rb_ensure.
  specialize (Hb st HP).
  destruct (body st) as [v s1|e s1|s1| |s1]; simpl in *; try done.
  all: specialize (He s1 Hb); by destruct (ensure s1).
Qed.

Lemma synchronize_ends_in (P : state → Prop) me func st :
  (∀ s l, P s → P (set_lock l s)) →
  (∀ s t, P s → P (set_lock_holder t s)) →
  (∀ s, P s → ends_in P (func s)) →
  P st → ends_in P (NIO_Selector_synchronize me func st).
Proof.
  intros Hl Hh Hf HP. unfold NIO_Selector_synchronize.
  destruct (decide (lock_holder st ≠ Some me)).
  - unfold Mutex_lock.
    destruct (lock st) as [owner|]; [by destruct (decide (owner = me))|].
    apply rb_ensure_ends_in; auto.
    intros s Hs. by apply unlock_ends_in.
  - specialize (Hf st HP). by destruct (func st).
Qed.

Lemma register_synchronized_fields io interests st :
  ends_in (same_selector_fields st) (NIO_Selector_register_synchronized io interests st).
Proof.
  unfold NIO_Selector_register_synchronized.
  destruct (selectables st !! io); by repeat split.
Qed.

Lemma deregister_synchronized_fields io st :
  ends_in (same_selector_fields st) (NIO_Selector_deregister_synchronized io st).
Proof.
  unfold NIO_Selector_deregister_synchronized.
  destruct (selectables st !! io); by repeat split.
Qed.

(** ** Shutdown *)

Lemma shutdown_closed st : closed (sel (NIO_Selector_shutdown st)) = true.
Proof.
  unfold NIO_Selector_shutdown.
  destruct (ev_loop (sel st) =? 0); simpl; by destruct (closed (sel st)) eqn:E.
Qed.

Lemma shutdown_loop st : ev_loop (sel (NIO_Selector_shutdown st)) = 0.
Proof.
  unfold NIO_Selector_shutdown.
  destruct (ev_loop (sel st) =? 0) eqn:E0; simpl;
    destruct (closed (sel st)) eqn:E; simpl; try done; lia.
Qed.

Lemma shutdown_again st :
  NIO_Selector_shutdown (NIO_Selector_shutdown st) = NIO_Selector_shutdown st.
Proof.
  pose proof (shutdown_closed st) as Hc. pose proof (shutdown_loop st) as Hl.
  generalize dependent (NIO_Selector_shutdown st). intros s Hc Hl.
  unfold NIO_Selector_shutdown. rewrite Hl. simpl. by rewrite Hc.
Qed.

Lemma perform_keeps_closed cfg me c st :
  closed (sel st) = true →
  ends_in (λ s, closed (sel s) = true) (perform cfg me c st).
Proof.
  intros Hc. destruct c as [io i|io|io|blk timeout env| | |]; simpl.
  - apply synchronize_ends_in; auto. intros s Hs.
    eapply ends_in_impl; [|apply register_synchronized_fields].
    intros s' (E&_). congruence.
  - apply synchronize_ends_in; auto. intros s Hs.
    eapply ends_in_impl; [|apply deregister_synchronized_fields].
    intros s' (E&_). congruence.
  - done.
  - assert (ends_in (λ s, closed (sel s) = true)
              (NIO_Selector_synchronize me
                 (NIO_Selector_select_synchronized cfg blk timeout env) st)) as Hgo.
    { apply synchronize_ends_in; auto. intros s Hs.
      eapply ends_in_impl; [|apply select_synchronized_outside].
      intros s' (E&_). congruence. }
    unfold NIO_Selector_select.
    destruct timeout; simpl; try done;
      match goal with |- context [dbl_neg ?q] => by destruct (dbl_neg q) end.
  - unfold NIO_Selector_wakeup. by rewrite Hc.
  - apply shutdown_closed.
  - done.
Qed.

(** C9.  [close] never fails and is idempotent.  Whatever the state, a call
    returns nil and leaves the selector closed; on an open selector it has
    destroyed the libev loop and closed the two ends of the wakeup pipe,
    in this order and once each; a further call returns nil and changes
    nothing at all (so it destroys and closes nothing a second time),
    [closed?] answers true, and no method of the selector ever takes
    [closed] back to false. *)
Theorem close_is_idempotent_and_final st :
  ∃ st',
    NIO_Selector_close st = Return Qnil st' ∧
    closed (sel st') = true ∧
    (closed (sel st) = false → ev_loop (sel st) ≠ 0 →
     trace st' =
       trace st ++ [E_ev_loop_destroy (ev_loop (sel st));
                    E_close (wakeup_reader (sel st));
                    E_close (wakeup_writer (sel st))] ∧
     ev_loop (sel st') = 0) ∧
    NIO_Selector_close st' = Return Qnil st' ∧
    NIO_Selector_closed st' = Return Qtrue st' ∧
    (∀ cfg me c, ends_in (λ s, closed (sel s) = true) (perform cfg me c st')).
Proof.
  exists (NIO_Selector_shutdown st).
  split; [done|]. split; [apply shutdown_closed|]. split; [|split; [|split]].
  - intros Hc Hl. split; [|apply shutdown_loop].
    unfold NIO_Selector_shutdown.
    destruct (ev_loop (sel st) =? 0) eqn:E0; [lia|]. simpl. rewrite Hc. simpl.
    rewrite <- !app_assoc. reflexivity.
  - unfold NIO_Selector_close. by rewrite shutdown_again.
  - unfold NIO_Selector_closed. by rewrite shutdown_closed.
  - intros cfg me c. apply perform_keeps_closed, shutdown_closed.
Qed.

Lemma close_is_idempotent_and_final_witness :
  closed (sel (NIO_Selector_new 3 4 1000)) = false ∧
  ev_loop (sel (NIO_Selector_new 3 4 1000)) ≠ 0 ∧
  ∃ st',
    NIO_Selector_close (NIO_Selector_new 3 4 1000) = Return Qnil st' ∧
    closed (sel st') = true ∧
    trace st' =
      trace (NIO_Selector_new 3 4 1000) ++ [E_ev_loop_destroy 1000; E_close 3; E_close 4] ∧
    NIO_Selector_close st' = Return Qnil st'.
Proof.
  split; [reflexivity|]. split; [discriminate|].
  destruct (close_is_idempotent_and_final (NIO_Selector_new 3 4 1000))
    as (st' & E & Hc & Hopen & Hagain & _).
  exists st'. split; [exact E|]. split; [exact Hc|]. split; [|exact Hagain].
  apply Hopen; [reflexivity | discriminate].
Defined.

(** ** Timeouts *)

Lemma dbl_neg_spec t : dbl_neg t = true ↔ (t < 0)%Q.
Proof.
  unfold dbl_neg, Qlt. simpl. rewrite Z.ltb_lt. lia.
Qed.

Lemma run_blocking_nil_arms_nothing blk env st :
  ends_in (λ s, armed_timers (trace s) = armed_timers (trace st))
          (NIO_Selector_run HAVE_RB_THREAD_BLOCKING_REGION blk Qnil env st).
Proof.
  unfold NIO_Selector_run.
  destruct (ev_slices env) as [|sl ?]; simpl; [by rewrite armed_timers_app, app_nil_r|].
  destruct (ev_loop_oneshot _ _ _) as [st2|] eqn:E2; [|done]. simpl.
  destruct (dispatch_trace _ _ _ _ E2) as (rs & -> & Hrs). simpl.
  rewrite !armed_timers_app, (armed_timers_reads rs Hrs). simpl.
  by rewrite !app_nil_r.
Qed.

Lemma run_blocking_arms_timeout blk timeout t env st :
  timeout ≠ Qnil → NUM2DBL timeout = Some t →
  ends_in (λ s, armed_timers (trace s) = armed_timers (trace st) ++ [(t + (1 # 10000))%Q])
          (NIO_Selector_run HAVE_RB_THREAD_BLOCKING_REGION blk timeout env st).
Proof.
  intros Hnil Ht. unfold NIO_Selector_run.
  assert (ends_in (λ s, armed_timers (trace s) = armed_timers (trace st) ++ [(t + (1 # 10000))%Q])
    match ev_slices env with
    | [] => Wait (emit (E_ev_timer_again (ev_loop (sel st)) (t + (1 # 10000))%Q)
                       (with_sel (set_selecting true) st))
    | sl :: _ =>
        match ev_loop_oneshot blk sl
                (emit (E_ev_timer_again (ev_loop (sel st)) (t + (1 # 10000))%Q)
                      (with_sel (set_selecting true) st)) with
        | Some st2 => run_finish st2
        | None => Abort
        end
    end) as Hgo.
  { destruct (ev_slices env) as [|sl ?]; simpl; [by rewrite armed_timers_app|].
    destruct (ev_loop_oneshot _ _ _) as [st2|] eqn:E2; [|done]. simpl.
    destruct (dispatch_trace _ _ _ _ E2) as (rs & -> & Hrs). simpl.
    rewrite !armed_timers_app, (armed_timers_reads rs Hrs). simpl.
    by rewrite !app_nil_r. }
  destruct timeout; simpl in *; try done; by injection Ht as <-.
Qed.

(** A slice during which neither the wakeup watcher nor a Monitor fires. *)
Lemma quiet_slice_keeps_waiting blk sl st :
  wakeup_fires (sl_events sl) = 0%nat → io_monitors (sl_events sl) = [] →
  selecting (sel st) = true → ready_count (sel st) = 0 →
  (blk = false → is_Some (ready_array (sel st))) →
  ∃ st', ev_loop_oneshot blk sl st = Some st' ∧
         selecting (sel st') = true ∧ ready_count (sel st') = 0 ∧
         (blk = false → is_Some (ready_array (sel st'))).
Proof.
  intros Hw Hio Hs Hc Hra. unfold ev_loop_oneshot.
  destruct (dispatch_defined blk (sl_events sl)
              (emit (E_ev_loop (ev_loop (sel st)) (sl_events sl)) st) Hra) as [st' E].
  exists st'. split; [done|].
  destruct (dispatch_wakeup_state _ _ _ _ E) as [E1 _].
  pose proof (dispatch_count _ _ _ _ E) as E2.
  pose proof (dispatch_reported _ _ _ _ E) as E3.
  rewrite Hw in E1. rewrite Hio in E2, E3. simpl in *.
  split; [congruence|]. split.
  - rewrite E2; unfold INT_MAX; lia.
  - intros ->. destruct E3 as [_ ->]. destruct (Hra eq_refl) as [a ->]. by eexists.
Qed.

Lemma busy_wait_nil_never_times_out blk t0 slices st :
  Forall (λ sl, wakeup_fires (sl_events sl) = 0%nat ∧ io_monitors (sl_events sl) = []) slices →
  selecting (sel st) = true → ready_count (sel st) = 0 →
  (blk = false → is_Some (ready_array (sel st))) →
  ∃ st', busy_wait blk Qnil t0 slices st = Wait st'.
Proof.
  intros Hq. revert st. induction Hq as [|sl slices [Hw Hio] _ IH];
    intros st Hs Hc Hra; simpl; rewrite Hs, Hc; simpl; [by eauto|].
  destruct (quiet_slice_keeps_waiting blk sl st Hw Hio Hs Hc Hra)
    as (st1 & -> & Hs1 & Hc1 & Hra1).
  by apply IH.
Qed.

(** C7.  A negative timeout makes [select] raise ArgumentError ("time
    interval must be positive") at once: the state it leaves is the state
    it found, so the lock was not taken and libev was not called.  A
    timeout of zero or more goes on into the critical section, and so does
    nil, which sets no deadline: the blocking build arms no timer for it
    (it arms [t + 0.0001] for a number [t]), and the polling build never
    stops on the clock. *)
Theorem select_checks_timeout cfg me blk timeout env st :
  (∀ t, NUM2DBL timeout = Some t → (t < 0)%Q →
     NIO_Selector_select cfg me blk timeout env st
     = Raise (ArgumentError "time interval must be positive") st) ∧
  (∀ t, NUM2DBL timeout = Some t → (0 <= t)%Q →
     NIO_Selector_select cfg me blk timeout env st
     = NIO_Selector_synchronize me
         (NIO_Selector_select_synchronized cfg blk timeout env) st ∧
     ends_in (λ s, armed_timers (trace s) = armed_timers (trace st) ++ [(t + (1 # 10000))%Q])
             (NIO_Selector_run HAVE_RB_THREAD_BLOCKING_REGION blk timeout env st)) ∧
  NIO_Selector_select cfg me blk Qnil env st
  = NIO_Selector_synchronize me
      (NIO_Selector_select_synchronized cfg blk Qnil env) st ∧
  ends_in (λ s, armed_timers (trace s) = armed_timers (trace st))
          (NIO_Selector_run HAVE_RB_THREAD_BLOCKING_REGION blk Qnil env st) ∧
  (Forall (λ sl, wakeup_fires (sl_events sl) = 0%nat ∧ io_monitors (sl_events sl) = [])
          (ev_slices env) →
   idle st →
   ∃ st', NIO_Selector_select_synchronized GREEN_THREADS blk Qnil env st = Wait st').
Proof.
  split; [|split; [|split; [|split]]].
  - intros t Ht Hneg. apply dbl_neg_spec in Hneg.
    unfold NIO_Selector_select. destruct timeout; simpl in *; try done;
      injection Ht as ->; by rewrite Hneg.
  - intros t Ht Hpos.
    assert (dbl_neg t = false) as Hn.
    { apply not_true_is_false. rewrite dbl_neg_spec. by apply Qle_not_lt. }
    split.
    + unfold NIO_Selector_select. destruct timeout; simpl in *; try done;
        injection Ht as ->; by rewrite Hn.
    + apply run_blocking_arms_timeout; [|done]. by intros ->.
  - done.
  - apply run_blocking_nil_arms_nothing.
  - intros Hq [Hc Hra].
    unfold NIO_Selector_select_synchronized, NIO_Selector_run.
    match goal with
    | |- context [busy_wait ?b Qnil ?t0 ?sl ?x] =>
        destruct (busy_wait_nil_never_times_out b t0 sl x Hq) as [st' ->]
    end; try by destruct blk.
    by eauto.
Qed.

Lemma select_checks_timeout_witness :
  ((inject_Z (-1) < 0)%Q ∧
   NIO_Selector_select HAVE_RB_THREAD_BLOCKING_REGION 7%nat false (Fixnum (-1))
     (mkEngine 0 []) (NIO_Selector_new 3 4 1000)
   = Raise (ArgumentError "time interval must be positive") (NIO_Selector_new 3 4 1000)) ∧
  ((0 <= 1 # 2)%Q ∧
   NIO_Selector_select GREEN_THREADS 7%nat true (Float (1 # 2))
     (mkEngine 0 []) (NIO_Selector_new 3 4 1000)
   = NIO_Selector_synchronize 7%nat
       (NIO_Selector_select_synchronized GREEN_THREADS true (Float (1 # 2)) (mkEngine 0 []))
       (NIO_Selector_new 3 4 1000)) ∧
  (idle (NIO_Selector_new 3 4 1000) ∧
   ∃ st', NIO_Selector_select_synchronized GREEN_THREADS false Qnil
            (mkEngine 0 [mkSlice [EvTimer] (1 # 100); mkSlice [EvTimer] (2 # 100)])
            (NIO_Selector_new 3 4 1000) = Wait st').
Proof.
  split; [|split].
  - split; [reflexivity|].
    apply (select_checks_timeout HAVE_RB_THREAD_BLOCKING_REGION 7%nat false (Fixnum (-1))
             (mkEngine 0 []) (NIO_Selector_new 3 4 1000)) with (t := inject_Z (-1));
      reflexivity.
  - split; [discriminate|].
    apply (select_checks_timeout GREEN_THREADS 7%nat true (Float (1 # 2))
             (mkEngine 0 []) (NIO_Selector_new 3 4 1000)) with (t := 1 # 2);
      [reflexivity | discriminate].
  - split; [split; reflexivity|].
    apply (select_checks_timeout GREEN_THREADS 7%nat false Qnil
             (mkEngine 0 [mkSlice [EvTimer] (1 # 100); mkSlice [EvTimer] (2 # 100)])
             (NIO_Selector_new 3 4 1000)).
    + repeat constructor.
    + split; reflexivity.
Defined.

(** ** Taking a free lock *)

Lemma synchronize_free_lock me func st :
  lock st = None → lock_holder st = None →
  NIO_Selector_synchronize me func st
  = rb_ensure func (NIO_Selector_unlock me)
      (set_lock_holder (Some me) (set_lock (Some me) st)).
Proof.
  intros Hl Hh. unfold NIO_Selector_synchronize, Mutex_lock.
  rewrite Hl, Hh.
  destruct (decide (None ≠ Some me)) as [_|Hn]; [done|]. by destruct Hn.
Qed.

Lemma register_free_lock me io interests st :
  lock st = None → lock_holder st = None →
  NIO_Selector_register me io interests st
  = NIO_Selector_register_synchronized io interests st.
Proof.
  intros Hl Hh. unfold NIO_Selector_register.
  rewrite synchronize_free_lock by done.
  destruct st as [s h l lh ms p y tr]. simpl in *. subst.
  unfold rb_ensure, NIO_Selector_register_synchronized. simpl.
  destruct (h !! io); simpl;
    unfold NIO_Selector_unlock, Mutex_unlock; simpl;
    by destruct (decide (me = me)).
Qed.

Lemma deregister_free_lock me io st :
  lock st = None → lock_holder st = None →
  NIO_Selector_deregister me io st
  = NIO_Selector_deregister_synchronized io st.
Proof.
  intros Hl Hh. unfold NIO_Selector_deregister.
  rewrite synchronize_free_lock by done.
  destruct st as [s h l lh ms p y tr]. simpl in *. subst.
  unfold rb_ensure, NIO_Selector_deregister_synchronized. simpl.
  destruct (h !! io); simpl;
    unfold NIO_Selector_unlock, Mutex_unlock; simpl;
    by destruct (decide (me = me)).
Qed.

(** ** The registration table *)

(** C3.  [register] on a handle the table does not hold creates a Monitor
    that did not exist before, built from the handle and the interests,
    stores it under the handle and returns it; on a handle the table holds
    it raises ArgumentError ("this IO is already registered with
    selector") and leaves the state, hence the table, as it was.  A thread
    that finds the lock free gets the same through the public method. *)
Theorem register_stores_or_rejects io interests st :
  (selectables st !! io = None →
   ∃ m st',
     NIO_Selector_register_synchronized io interests st = Return (Obj m) st' ∧
     monitors st !! m = None ∧
     monitors st' = <[m := Monitor_new io interests]> (monitors st) ∧
     selectables st' = <[io := m]> (selectables st)) ∧
  (is_Some (selectables st !! io) →
   NIO_Selector_register_synchronized io interests st
   = Raise (ArgumentError "this IO is already registered with selector") st) ∧
  (∀ me, lock st = None → lock_holder st = None →
   NIO_Selector_register me io interests st
   = NIO_Selector_register_synchronized io interests st).
Proof.
  split; [|split].
  - intros Hnone. unfold NIO_Selector_register_synchronized. rewrite Hnone.
    eexists _, _. split; [done|]. split; [|done].
    apply not_elem_of_dom, is_fresh.
  - intros [m Hm]. unfold NIO_Selector_register_synchronized. by rewrite Hm.
  - intros me. apply register_free_lock.
Qed.

Lemma register_stores_or_rejects_witness :
  (selectables (NIO_Selector_new 3 4 1000) !! 10%nat = None ∧
   ∃ m st',
     NIO_Selector_register_synchronized 10%nat 1%nat (NIO_Selector_new 3 4 1000)
     = Return (Obj m) st' ∧
     selectables st' = <[10%nat := m]> (selectables (NIO_Selector_new 3 4 1000))) ∧
  (∀ st, NIO_Selector_register_synchronized 10%nat 1%nat (NIO_Selector_new 3 4 1000)
         = Return (Obj 0%nat) st →
     is_Some (selectables st !! 10%nat) ∧
     NIO_Selector_register_synchronized 10%nat 2%nat st
     = Raise (ArgumentError "this IO is already registered with selector") st).
Proof.
  split.
  - split; [reflexivity|].
    destruct (register_stores_or_rejects 10%nat 1%nat (NIO_Selector_new 3 4 1000))
      as [H _].
    destruct (H eq_refl) as (m & st' & E & _ & _ & Hs). by exists m, st'.
  - intros st E.
    assert (is_Some (selectables st !! 10%nat)) as Hsome.
    { injection E as <-. by eexists. }
    split; [done|].
    by apply (register_stores_or_rejects 10%nat 2%nat st).
Defined.

(** C8.  [deregister] on a registered handle takes its Monitor out of the
    table, calls [close(false)] on that Monitor and on no other, and
    returns it; on a handle that is not registered it returns nil and the
    state is untouched: no error, same table, no Monitor closed.  A thread
    that finds the lock free gets the same through the public method. *)
Theorem deregister_removes_or_ignores io st :
  (∀ m, selectables st !! io = Some m →
   ∃ st',
     NIO_Selector_deregister_synchronized io st = Return (Obj m) st' ∧
     selectables st' = delete io (selectables st) ∧
     selectables st' !! io = None ∧
     monitors st' !! m = Monitor_close false <$> monitors st !! m ∧
     (∀ m', m' ≠ m → monitors st' !! m' = monitors st !! m')) ∧
  (selectables st !! io = None →
   NIO_Selector_deregister_synchronized io st = Return Qnil st) ∧
  (∀ me, lock st = None → lock_holder st = None →
   NIO_Selector_deregister me io st = NIO_Selector_deregister_synchronized io st).
Proof.
  split; [|split].
  - intros m Hm. unfold NIO_Selector_deregister_synchronized. rewrite Hm.
    eexists. split; [done|]. simpl. split; [done|].
    split; [apply lookup_delete_eq|]. split.
    + apply lookup_alter_eq.
    + intros m' Hne. by apply lookup_alter_ne.
  - intros Hnone. unfold NIO_Selector_deregister_synchronized. by rewrite Hnone.
  - intros me. apply deregister_free_lock.
Qed.

Lemma deregister_removes_or_ignores_witness :
  (selectables sample_registered !! 10%nat = Some 0%nat ∧
   ∃ st', NIO_Selector_deregister_synchronized 10%nat sample_registered
          = Return (Obj 0%nat) st' ∧
          selectables st' !! 10%nat = None ∧
          monitors st' !! 0%nat = Monitor_close false <$> monitors sample_registered !! 0%nat) ∧
  (selectables sample_open !! 10%nat = None ∧
   NIO_Selector_deregister_synchronized 10%nat sample_open = Return Qnil sample_open).
Proof.
  split.
  - split; [reflexivity|].
    destruct (deregister_removes_or_ignores 10%nat sample_registered) as [H _].
    destruct (H 0%nat eq_refl) as (st' & E & _ & Hnone & Hm & _). by exists st'.
  - split; [reflexivity|].
    by apply (deregister_removes_or_ignores 10%nat sample_open).
Defined.

(** ** What the table methods leave alone *)

Lemma same_selector_fields_refl st : same_selector_fields st st.
Proof. by repeat split. Qed.

Lemma same_selector_fields_trans st1 st2 st3 :
  same_selector_fields st1 st2 → same_selector_fields st2 st3 →
  same_selector_fields st1 st3.
Proof.
  unfold same_selector_fields.
  intros (?&?&?&?&?&?&?&?&?&?) (?&?&?&?&?&?&?&?&?&?).
  repeat split; congruence.
Qed.

Lemma synchronize_selector_fields me func st :
  (∀ s, ends_in (same_selector_fields s) (func s)) →
  ends_in (same_selector_fields st) (NIO_Selector_synchronize me func st).
Proof.
  intros Hf. apply synchronize_ends_in.
  - intros s l Hs. eapply same_selector_fields_trans; [exact Hs|]. by repeat split.
  - intros s t Hs. eapply same_selector_fields_trans; [exact Hs|]. by repeat split.
  - intros s Hs. eapply ends_in_impl; [|apply Hf].
    intros s'. by apply same_selector_fields_trans.
  - apply same_selector_fields_refl.
Qed.

(** The lock is given back as it was found. *)
Lemma synchronize_restores_lock me func st :
  lock_consistent st →
  (∀ s, ends_in (λ s', lock s' = lock s ∧ lock_holder s' = lock_holder s) (func s)) →
  back_in (λ s, lock s = lock st ∧ lock_holder s = lock_holder st)
          (NIO_Selector_synchronize me func st).
Proof.
  unfold lock_consistent. intros Hcons Hf. unfold NIO_Selector_synchronize.
  destruct (decide (lock_holder st ≠ Some me)) as [Hne|Heq].
  - unfold Mutex_lock. destruct (lock st) as [owner|] eqn:El.
    { destruct (decide (owner = me)); simpl; [by rewrite El | done]. }
    unfold rb_ensure.
    specialize (Hf (set_lock_holder (Some me) (set_lock (Some me) st))).
    destruct (func _) as [v s1|e s1|s1| |s1]; simpl in *; try done.
    all: destruct Hf as [E1 E2];
      unfold NIO_Selector_unlock, Mutex_unlock; simpl; rewrite E1;
      destruct (decide (me = me)); simpl; by rewrite <- ?Hcons, ?El.
  - specialize (Hf st). by destruct (func st).
Qed.

(** A body that always finishes leaves one way to be parked: the Mutex,
    before anything was done. *)
Lemma synchronize_parked_on_mutex me func st s' :
  (∀ s s1, func s ≠ Wait s1) →
  NIO_Selector_synchronize me func st = Wait s' → s' = st.
Proof.
  intros Hf. unfold NIO_Selector_synchronize.
  destruct (decide (lock_holder st ≠ Some me)) as [Hne|Heq].
  - unfold Mutex_lock. destruct (lock st) as [owner|] eqn:El.
    { destruct (decide (owner = me)); [done | by intros [= <-]]. }
    unfold rb_ensure.
    destruct (func _) as [v s1|e s1|s1| |s1] eqn:Ef; try done.
    4: by apply Hf in Ef.
    all: unfold NIO_Selector_unlock, Mutex_unlock; simpl;
      destruct (lock s1) as [o|]; [destruct (decide (o = me))|]; done.
  - destruct (func st) as [v s1|e s1|s1| |s1] eqn:Ef; try done.
    by apply Hf in Ef.
Qed.

Lemma back_in_ends_in {A} (P : state → Prop) (r : result A) :
  back_in P r → (∀ s, r = Wait s → P s) → ends_in P r.
Proof. destruct r; simpl; auto. Qed.

Lemma register_synchronized_lock io interests s :
  ends_in (λ s', lock s' = lock s ∧ lock_holder s' = lock_holder s)
          (NIO_Selector_register_synchronized io interests s).
Proof. unfold NIO_Selector_register_synchronized. by destruct (selectables s !! io). Qed.

Lemma deregister_synchronized_lock io s :
  ends_in (λ s', lock s' = lock s ∧ lock_holder s' = lock_holder s)
          (NIO_Selector_deregister_synchronized io s).
Proof. unfold NIO_Selector_deregister_synchronized. by destruct (selectables s !! io). Qed.

Lemma register_synchronized_finishes io interests s s1 :
  NIO_Selector_register_synchronized io interests s ≠ Wait s1.
Proof. unfold NIO_Selector_register_synchronized. by destruct (selectables s !! io). Qed.

Lemma deregister_synchronized_finishes io s s1 :
  NIO_Selector_deregister_synchronized io s ≠ Wait s1.
Proof. unfold NIO_Selector_deregister_synchronized. by destruct (selectables s !! io). Qed.

Lemma register_keeps_monitors me io interests st m x :
  monitors st !! m = Some x →
  ends_in (λ s, monitors s !! m = Some x) (NIO_Selector_register me io interests st).
Proof.
  intros Hm. apply synchronize_ends_in; auto.
  intros s Hs. unfold NIO_Selector_register_synchronized.
  destruct (selectables s !! io); simpl; [done|].
  rewrite lookup_insert_ne; [done|].
  intros E. pose proof (is_fresh (dom (monitors s))) as Hf.
  rewrite E in Hf. apply Hf, elem_of_dom. by eexists.
Qed.

Lemma deregister_keeps_monitors me io st m :
  selectables st !! io ≠ Some m →
  ends_in (λ s, monitors s !! m = monitors st !! m) (NIO_Selector_deregister me io st).
Proof.
  intros Hm.
  eapply ends_in_impl; [|
    apply (synchronize_ends_in
             (λ s, monitors s !! m = monitors st !! m ∧ selectables s !! io ≠ Some m))];
    simpl; auto.
  - by intros s [? _].
  - intros s [Hs1 Hs2]. unfold NIO_Selector_deregister_synchronized.
    destruct (selectables s !! io) as [m'|] eqn:E; simpl.
    + split; [|by rewrite lookup_delete_eq].
      rewrite lookup_alter_ne; [done|]. congruence.
    + split; [done|]. by rewrite E.
Qed.

(** C10.  [register], [deregister] and [registered?] leave [closed],
    [selecting], [ready_count], the pending Array, both ends of the wakeup
    pipe (and the bytes in it), the loop handle, the log of yields and the
    log of calls to libev and the kernel as they found them, however the
    call ends.  With a consistent lock they give the lock back as it was.
    Of the Monitors that exist, only the one [deregister] removes is
    written to.  [registered?] changes nothing. *)
Theorem table_methods_touch_only_table cfg me c st :
  table_call c →
  ends_in (same_selector_fields st) (perform cfg me c st) ∧
  (lock_consistent st →
   ends_in (λ s, lock s = lock st ∧ lock_holder s = lock_holder st)
           (perform cfg me c st)) ∧
  (∀ m x, monitors st !! m = Some x →
          (∀ io, c = call_deregister io → selectables st !! io ≠ Some m) →
          ends_in (λ s, monitors s !! m = Some x) (perform cfg me c st)) ∧
  (∀ io, c = call_is_registered io → ∃ v, perform cfg me c st = Return v st).
Proof.
  intros Hc. destruct c as [io i|io|io|blk timeout env| | |]; try done; simpl.
  - split; [|split; [|split]].
    + apply synchronize_selector_fields. intros s. apply register_synchronized_fields.
    + intros Hcons. apply back_in_ends_in.
      * apply synchronize_restores_lock; [done|].
        intros s. apply register_synchronized_lock.
      * intros s Hs. apply synchronize_parked_on_mutex in Hs; [by subst|].
        intros ? ?. apply register_synchronized_finishes.
    + intros m x Hm _. by apply register_keeps_monitors.
    + done.
  - split; [|split; [|split]].
    + apply synchronize_selector_fields. intros s. apply deregister_synchronized_fields.
    + intros Hcons. apply back_in_ends_in.
      * apply synchronize_restores_lock; [done|].
        intros s. apply deregister_synchronized_lock.
      * intros s Hs. apply synchronize_parked_on_mutex in Hs; [by subst|].
        intros ? ?. apply deregister_synchronized_finishes.
    + intros m x Hm Hne.
      eapply ends_in_impl; [|apply deregister_keeps_monitors; by apply Hne].
      simpl. congruence.
    + done.
  - split; [apply same_selector_fields_refl|]. split; [done|]. split; [done|]. eauto.
Qed.

Lemma table_methods_touch_only_table_witness :
  table_call (call_deregister 10%nat) ∧
  lock_consistent sample_registered ∧
  ends_in (same_selector_fields sample_registered)
          (perform GREEN_THREADS 7%nat (call_deregister 10%nat) sample_registered) ∧
  ends_in (λ s, lock s = lock sample_registered ∧
                lock_holder s = lock_holder sample_registered)
          (perform GREEN_THREADS 7%nat (call_deregister 10%nat) sample_registered).
Proof.
  split; [exact I|]. split; [reflexivity|].
  destruct (table_methods_touch_only_table GREEN_THREADS 7%nat (call_deregister 10%nat)
              sample_registered I) as (H1 & H2 & _).
  split; [exact H1 | apply H2; reflexivity].
Defined.

(** ** Readiness events *)










(** ** What one [select] collects *)

Lemma run_post_refl blk st : run_post blk st st [].
Proof.
  unfold run_post. rewrite app_nil_r. split; [done|]. split; [simpl; lia|].
  destruct blk; by rewrite ?app_nil_r, ?fmap_app_nil.
Qed.

Lemma run_post_trans blk st1 st2 st3 ms1 ms2 :
  run_post blk st1 st2 ms1 → run_post blk st2 st3 ms2 →
  run_post blk st1 st3 (ms1 ++ ms2).
Proof.
  unfold run_post. intros (F1 & C1 & R1) (F2 & C2 & R2).
  split; [by rewrite F2, F1, app_assoc|].
  split; [rewrite C2, C1, length_app; lia|].
  destruct blk.
  - destruct R1 as [Y1 A1], R2 as [Y2 A2]. by rewrite Y2, Y1, A2, A1, app_assoc.
  - destruct R1 as [Y1 A1], R2 as [Y2 A2]. rewrite Y2, Y1, A2, A1. split; [done|].
    destruct (ready_array (sel st1)); simpl; by rewrite ?app_assoc.
Qed.

Lemma run_post_same blk st st' :
  fired_monitors (trace st') = fired_monitors (trace st) →
  ready_count (sel st') = ready_count (sel st) →
  yielded st' = yielded st →
  ready_array (sel st') = ready_array (sel st) →
  run_post blk st st' [].
Proof.
  intros F C Y A. unfold run_post. rewrite F, C, Y, A, app_nil_r.
  split; [done|]. split; [simpl; lia|].
  destruct blk; by rewrite ?app_nil_r, ?fmap_app_nil.
Qed.

Lemma ev_loop_oneshot_post blk sl st st' :
  ev_loop_oneshot blk sl st = Some st' →
  0 ≤ ready_count (sel st) →
  ready_count (sel st) + Z.of_nat (length (io_monitors (sl_events sl))) ≤ INT_MAX →
  run_post blk st st' (io_monitors (sl_events sl)).
Proof.
  unfold ev_loop_oneshot. intros E H0 Hmax.
  pose proof (dispatch_count _ _ _ _ E H0 Hmax) as Hc.
  pose proof (dispatch_reported _ _ _ _ E) as Hr.
  destruct (dispatch_trace _ _ _ _ E) as (rs & Ht & Hrs).
  split; [|split; [done|done]].
  rewrite Ht. simpl. rewrite !fired_monitors_app, (fired_monitors_reads rs Hrs).
  simpl. by rewrite !app_nil_r.
Qed.

Lemma ev_loop_oneshot_defined blk sl st :
  (blk = false → is_Some (ready_array (sel st))) →
  ∃ st', ev_loop_oneshot blk sl st = Some st'.
Proof. intros Hra. by apply dispatch_defined. Qed.

Lemma ev_loop_oneshot_wakeup_state blk sl st st' :
  ev_loop_oneshot blk sl st = Some st' →
  selecting (sel st')
  = (if (wakeup_fires (sl_events sl) =? 0)%nat then selecting (sel st) else false).
Proof. intros E. by destruct (dispatch_wakeup_state _ _ _ _ E) as [-> _]. Qed.

Lemma run_post_array blk st st' ms :
  run_post blk st st' ms →
  (blk = false → is_Some (ready_array (sel st))) →
  (blk = false → is_Some (ready_array (sel st'))).
Proof.
  intros (_ & _ & R) Hra ->. destruct R as [_ ->].
  destruct (Hra eq_refl) as [a ->]. by eexists.
Qed.

Lemma total_io_cons sl slices :
  total_io (sl :: slices) = io_monitors (sl_events sl) ++ total_io slices.
Proof. done. Qed.

Lemma busy_wait_stops blk timeout t0 slices st :
  selecting (sel st) && (ready_count (sel st) =? 0) = false →
  busy_wait blk timeout t0 slices st = Return tt st.
Proof. intros H. destruct slices; simpl; by rewrite H. Qed.

Lemma busy_wait_post blk timeout t0 slices st st' :
  busy_wait blk timeout t0 slices st = Return tt st' →
  0 ≤ ready_count (sel st) →
  ready_count (sel st) + Z.of_nat (length (total_io slices)) ≤ INT_MAX →
  ∃ ms, run_post blk st st' ms.
Proof.
  revert st. induction slices as [|sl slices IH]; intros st; simpl.
  - destruct (selecting (sel st) && (ready_count (sel st) =? 0)); [done|].
    intros [= <-] _ _. exists []. apply run_post_refl.
  - destruct (selecting (sel st) && (ready_count (sel st) =? 0)).
    2: { intros [= <-] _ _. exists []. apply run_post_refl. }
    rewrite total_io_cons, length_app.
    destruct (ev_loop_oneshot blk sl st) as [st1|] eqn:E1; [|done].
    intros H H0 Hmax.
    pose proof (ev_loop_oneshot_post _ _ _ _ E1 H0 ltac:(lia)) as P1.
    assert (run_post blk st1 (emit (E_ev_now (ev_loop (sel st1)) (sl_now sl)) st1) [])
      as P2.
    { apply run_post_same; simpl; try done.
      by rewrite fired_monitors_app, app_nil_r. }
    pose proof (run_post_trans _ _ _ _ _ _ P1 P2) as P12. rewrite app_nil_r in P12.
    assert (∀ s, run_post blk st s (io_monitors (sl_events sl)) →
                 busy_wait blk timeout t0 slices s = Return tt st' →
                 ∃ ms, run_post blk st st' ms) as Hrec.
    { intros s Ps Hs. destruct Ps as (F & C & R).
      destruct (IH s Hs) as [ms' Pms']; [lia | lia |].
      eexists. eapply run_post_trans; [|exact Pms']. by split. }
    destruct timeout; simpl in H; try done; try exact (Hrec _ P1 H);
      match type of H with
      | context [dbl_ge ?a ?b] => destruct (dbl_ge a b)
      end;
      try exact (Hrec _ P12 H);
      injection H as <-; eauto.
Qed.

Lemma busy_wait_returns blk timeout t0 slices st :
  Exists (slice_ends timeout t0) slices →
  timeout_ok timeout →
  (blk = false → is_Some (ready_array (sel st))) →
  0 ≤ ready_count (sel st) →
  ready_count (sel st) + Z.of_nat (length (total_io slices)) ≤ INT_MAX →
  ∃ st', busy_wait blk timeout t0 slices st = Return tt st'.
Proof.
  revert st. induction slices as [|sl slices IH]; intros st Hex Hok Hra H0 Hmax.
  { by apply Exists_nil in Hex. }
  simpl. destruct (selecting (sel st) && (ready_count (sel st) =? 0)) eqn:Hcond;
    [|by eauto].
  apply andb_prop in Hcond as [Hsel Hrc]. apply Z.eqb_eq in Hrc.
  rewrite total_io_cons, length_app in Hmax.
  destruct (ev_loop_oneshot_defined blk sl st Hra) as [st1 E1]. rewrite E1.
  pose proof (ev_loop_oneshot_post _ _ _ _ E1 H0 ltac:(lia)) as P1.
  pose proof (ev_loop_oneshot_wakeup_state _ _ _ _ E1) as S1.
  pose proof (run_post_array _ _ _ _ P1 Hra) as Hra1.
  destruct P1 as (_ & C1 & _).
  (* after this slice the loop is over, or a later slice ends it *)
  assert (∀ s, selecting (sel s) = selecting (sel st1) →
               ready_count (sel s) = ready_count (sel st1) →
               (blk = false → is_Some (ready_array (sel s))) →
               (EvWakeup ∈ sl_events sl ∨ io_monitors (sl_events sl) ≠ []
                ∨ Exists (slice_ends timeout t0) slices) →
               ∃ st', busy_wait blk timeout t0 slices s = Return tt st') as Hrec.
  { intros s Hs Hc Hras [Hw|[Hio|Hlater]].
    - eexists. apply busy_wait_stops. rewrite Hs, S1.
      apply wakeup_fires_pos in Hw. by destruct (wakeup_fires (sl_events sl)); [lia|].
    - eexists. apply busy_wait_stops. rewrite Hc, C1.
      destruct (io_monitors (sl_events sl)); [done|].
      apply andb_false_intro2, Z.eqb_neq. simpl length. lia.
    - apply IH; try done; lia. }
  apply Exists_cons in Hex.
  destruct Hok as [->|[t Ht]].
  - apply Hrec; try done.
    destruct Hex as [[Hw|[Hio|(t & Hne & _)]]|Hlater]; auto.
  - destruct timeout; try done; simpl in Ht; injection Ht as <-; simpl;
      match goal with
      | |- context [dbl_ge ?a ?b] => destruct (dbl_ge a b) eqn:Hge
      end; try by eauto.
    all: apply Hrec; try done.
    all: destruct Hex as [[Hw|[Hio|(t & _ & Ht & Hge')]]|Hlater]; auto.
    all: simpl in Ht; injection Ht as <-; congruence.
Qed.

Lemma run_collects cfg blk timeout env st ready st' :
  NIO_Selector_run cfg blk timeout env st = Return ready st' →
  0 ≤ ready_count (sel st) →
  ready_count (sel st) + Z.of_nat (length (total_io (ev_slices env))) ≤ INT_MAX →
  ∃ st2 ms, run_post blk st st2 ms ∧ run_finish st2 = Return ready st'.
Proof.
  unfold NIO_Selector_run. intros H H0 Hmax. destruct cfg.
  - assert (∀ e, fired_monitors [e] = [] →
      match ev_slices env with
      | [] => Wait (emit e (with_sel (set_selecting true) st))
      | sl :: _ =>
          match ev_loop_oneshot blk sl (emit e (with_sel (set_selecting true) st)) with
          | Some st2 => run_finish st2
          | None => Abort
          end
      end = Return ready st' →
      ∃ st2 ms, run_post blk st st2 ms ∧ run_finish st2 = Return ready st') as Hgo.
    { intros e He Hr. destruct (ev_slices env) as [|sl rest]; [done|].
      rewrite total_io_cons, length_app in Hmax.
      destruct (ev_loop_oneshot _ _ _) as [st2|] eqn:E2; [|done].
      apply ev_loop_oneshot_post in E2; simpl; [|done|lia].
      exists st2, ([] ++ io_monitors (sl_events sl)). split; [|done].
      eapply run_post_trans; [|exact E2].
      apply run_post_same; simpl; try done.
      by rewrite fired_monitors_app, He, app_nil_r. }
    destruct timeout; simpl in H; try done; (eapply Hgo; [|exact H]; done).
  - match type of H with
    | context [busy_wait ?b ?t ?s ?sl ?x] =>
        destruct (busy_wait b t s sl x) as [[] st3|e st3|st3| |st3] eqn:Eb
    end; try done.
    apply busy_wait_post in Eb as [ms Pms]; simpl; [|done|done].
    eexists _, ([] ++ ms ++ []). split; [|exact H].
    eapply run_post_trans; [|eapply run_post_trans; [exact Pms|]].
    + apply run_post_same; simpl; try done.
      by rewrite !fired_monitors_app, !app_nil_r.
    + apply run_post_same; simpl; try done.
      by rewrite !fired_monitors_app, !app_nil_r.
Qed.

Lemma run_returns cfg blk timeout env st :
  timeout_ok timeout → comes_back cfg timeout env →
  (blk = false → is_Some (ready_array (sel st))) →
  0 ≤ ready_count (sel st) →
  ready_count (sel st) + Z.of_nat (length (total_io (ev_slices env))) ≤ INT_MAX →
  ∃ ready st', NIO_Selector_run cfg blk timeout env st = Return ready st'.
Proof.
  intros Hok Hback Hra H0 Hmax. unfold NIO_Selector_run. destruct cfg; simpl in Hback.
  - assert (∀ e, ∃ ready st',
      match ev_slices env with
      | [] => Wait (emit e (with_sel (set_selecting true) st))
      | sl :: _ =>
          match ev_loop_oneshot blk sl (emit e (with_sel (set_selecting true) st)) with
          | Some st2 => run_finish st2
          | None => Abort
          end
      end = Return ready st') as Hgo.
    { intros e. destruct (ev_slices env) as [|sl rest]; [done|].
      destruct (ev_loop_oneshot_defined blk sl
                  (emit e (with_sel (set_selecting true) st)) Hra) as [st2 ->].
      unfold run_finish. eauto. }
    destruct Hok as [->|[t Ht]]; [apply Hgo|].
    destruct timeout; simpl in *; try done; apply Hgo.
  - match goal with
    | |- context [busy_wait ?b ?t ?s ?sl ?x] =>
        destruct (busy_wait_returns b t s sl x) as [st3 ->]
    end; try done.
    unfold run_finish. eauto.
Qed.

Lemma select_synchronized_collects cfg blk timeout env st v st' :
  idle st →
  Z.of_nat (length (total_io (ev_slices env))) ≤ INT_MAX →
  NIO_Selector_select_synchronized cfg blk timeout env st = Return v st' →
  ∃ ms,
    fired_monitors (trace st') = fired_monitors (trace st) ++ ms ∧
    (if blk then
       v = match ms with [] => Qnil | _ => Fixnum (Z.of_nat (length ms)) end ∧
       yielded st' = yielded st ++ ms
     else
       v = match ms with [] => Qnil | _ => Ary ms end ∧
       yielded st' = yielded st) ∧
    ready_array (sel st') = None ∧
    ready_count (sel st') = 0 ∧
    selecting (sel st') = false.
Proof.
  intros [Hc Hra] Hmax.
  set (st0 := if blk then st else with_sel (set_ready_array (Some [])) st).
  assert (ready_count (sel st0) = 0) as Hc0 by (by destruct blk).
  unfold NIO_Selector_select_synchronized. fold st0.
  destruct (NIO_Selector_run cfg blk timeout env st0)
    as [ready st1|e st1|st1| |st1] eqn:Er; try done.
  apply run_collects in Er as (st2 & ms & (F & C & R) & Hfin); [|lia|lia].
  injection Hfin as <- <-. rewrite Hc0 in C. simpl.
  assert (trace st0 = trace st) as Ht0 by (by destruct blk).
  rewrite Ht0 in F.
  intros Hv. exists ms. rewrite C in Hv.
  destruct ms as [|m ms]; simpl length in *.
  - simpl in Hv. destruct blk; injection Hv as <- <-; simpl.
    all: repeat split; try done.
    all: simpl in R; destruct R as [R1 R2]; by rewrite ?R1, ?app_nil_r.
  - assert ((0 <? 0 + Z.of_nat (S (length ms))) = true) as Hpos
      by (apply Z.ltb_lt; lia).
    rewrite Hpos in Hv.
    destruct blk; simpl in R; destruct R as [R1 R2].
    + injection Hv as <- <-. simpl. repeat split; try done.
      by rewrite R2.
    + rewrite R2 in Hv. simpl in Hv. injection Hv as <- <-. by repeat split.
Qed.

Lemma select_synchronized_comes_back cfg blk timeout env st :
  idle st →
  Z.of_nat (length (total_io (ev_slices env))) ≤ INT_MAX →
  timeout_ok timeout → comes_back cfg timeout env →
  ∃ v st', NIO_Selector_select_synchronized cfg blk timeout env st = Return v st'.
Proof.
  intros [Hc Hra] Hmax Hok Hback.
  set (st0 := if blk then st else with_sel (set_ready_array (Some [])) st).
  assert (ready_count (sel st0) = 0) as Hc0 by (by destruct blk).
  assert (blk = false → is_Some (ready_array (sel st0))) as Hra0
    by (intros ->; by eexists).
  unfold NIO_Selector_select_synchronized. fold st0.
  destruct (run_returns cfg blk timeout env st0 Hok Hback Hra0) as (ready & st1 & ->);
    [lia | lia |].
  destruct (0 <? ready); [destruct blk|]; eauto.
Qed.

(** C1 (the code departs from the claim).  [NIO_Selector_run] reads and
    resets [ready_count] and [selecting] on its last lines only
    (selector.c:356-357); a block that raises in the Monitor callback
    leaves through [rb_ensure], which unlocks and does nothing else.  On
    the selector with IO 10 registered, thread 7 selects with a block that
    raises on the Monitor that fired: the call raises with the lock free
    again, [ready_count] at 1 and [selecting] at 1.  The next [select]
    then answers from the stale count.  Without a block, with only the
    timer firing, it returns the empty Array, not nil; with a block it
    returns 1 although no Monitor fired and none was yielded; and in the
    polling build it returns the empty Array without one [ev_loop] call,
    the loop condition being false at once. *)
Theorem raising_block_leaves_stale_count :
  let boom : block := λ _, Some (IOError "boom") in
  ∃ s1,
    NIO_Selector_select_with HAVE_RB_THREAD_BLOCKING_REGION 7%nat boom (Fixnum 1)
      (mkEngine 0 [mkSlice [EvIO 0%nat 1] 0]) sample_registered
    = Raise (IOError "boom") s1 ∧
    ready_count (sel s1) = 1 ∧
    selecting (sel s1) = true ∧
    ready_array (sel s1) = None ∧
    lock s1 = None ∧ lock_holder s1 = None ∧
    (∃ s2,
       NIO_Selector_select HAVE_RB_THREAD_BLOCKING_REGION 7%nat false (Fixnum 1)
         (mkEngine 0 [mkSlice [EvTimer] 0]) s1 = Return (Ary []) s2 ∧
       fired_monitors (trace s2) = fired_monitors (trace s1) ∧
       ready_array (sel s2) = None) ∧
    (∃ s2,
       NIO_Selector_select HAVE_RB_THREAD_BLOCKING_REGION 7%nat true (Fixnum 1)
         (mkEngine 0 [mkSlice [EvTimer] 0]) s1 = Return (Fixnum 1) s2 ∧
       fired_monitors (trace s2) = fired_monitors (trace s1) ∧
       yielded s2 = yielded s1) ∧
    (∃ s2,
       NIO_Selector_select GREEN_THREADS 7%nat false Qnil
         (mkEngine 0 [mkSlice [EvIO 0%nat 1] 0]) s1 = Return (Ary []) s2 ∧
       loop_runs (trace s2) = loop_runs (trace s1)).
Proof.
  intros boom. eexists. split; [vm_compute; reflexivity|].
  repeat split; try reflexivity.
  - eexists. split; [vm_compute; reflexivity|]. split; reflexivity.
  - eexists. split; [vm_compute; reflexivity|]. split; reflexivity.
  - eexists. split; [vm_compute; reflexivity|]. reflexivity.
Qed.

(** On the idle selector the answers are the claimed ones.  No block: the
    Array holds Monitor 0. *)
Example select_sample_array :
  ∃ st', NIO_Selector_select_synchronized HAVE_RB_THREAD_BLOCKING_REGION false Qnil
           (mkEngine 0 [mkSlice [EvIO 0%nat 1] 0]) sample_registered
         = Return (Ary [0%nat]) st'.
Proof. eexists. vm_compute. reflexivity. Qed.

(** With a block, two Monitors firing: the count is 2, both were yielded. *)
Example select_sample_count :
  ∃ st', NIO_Selector_select_synchronized HAVE_RB_THREAD_BLOCKING_REGION true (Fixnum 1)
           (mkEngine 0 [mkSlice [EvIO 0%nat 1; EvIO 5%nat 2] 0]) sample_registered
         = Return (Fixnum 2) st' ∧ yielded st' = [0%nat; 5%nat].
Proof. eexists. vm_compute. split; reflexivity. Qed.

(** Only the timer fires: no activity. *)
Example select_sample_timeout :
  ∃ st', NIO_Selector_select_synchronized HAVE_RB_THREAD_BLOCKING_REGION true (Fixnum 1)
           (mkEngine 0 [mkSlice [EvTimer] 0]) sample_registered
         = Return Qnil st'.
Proof. eexists. vm_compute. reflexivity. Qed.

(** ** Wakeups *)

Lemma wakeups_open n st :
  closed (sel st) = false →
  sel (wakeups n st) = sel st ∧
  pipe (wakeups n st) = (pipe st + n)%nat ∧
  trace (wakeups n st) = trace st ++ replicate n (E_write (wakeup_writer (sel st)) 1).
Proof.
  revert st. induction n as [|n IH]; intros st Hc; simpl.
  - by rewrite Nat.add_0_r, app_nil_r.
  - unfold NIO_Selector_wakeup. rewrite Hc.
    match goal with |- context [wakeups n ?s] => destruct (IH s Hc) as (E1 & E2 & E3) end.
    rewrite E1, E2, E3. simpl. split; [done|]. split; [lia|].
    by rewrite <- app_assoc.
Qed.

Lemma interruptions_writes n fd : interruptions (replicate n (E_write fd 1)) = 0%nat.
Proof. by induction n. Qed.

Lemma wakeup_fires_reports ios timer st :
  wakeup_fires (libev_reports ios timer st) = (if (0 <? pipe st)%nat then 1 else 0)%nat.
Proof.
  unfold libev_reports. rewrite !wakeup_fires_app.
  assert (wakeup_fires (map (λ p : obj * Z, EvIO p.1 p.2) ios) = 0%nat) as ->
    by (by induction ios).
  destruct (0 <? pipe st)%nat, timer; done.
Qed.

Lemma iteration_interrupts blk ios timer st :
  (blk = false → is_Some (ready_array (sel st))) →
  ∃ st', ev_loop_oneshot blk (mkSlice (libev_reports ios timer st) 0%Q) st = Some st' ∧
         (blk = false → is_Some (ready_array (sel st'))) ∧
         interruptions (trace st')
         = (interruptions (trace st) + (if (0 <? pipe st)%nat then 1 else 0))%nat ∧
         pipe st' = 0%nat ∧
         selecting (sel st')
         = (if (0 <? pipe st)%nat then false else selecting (sel st)).
Proof.
  intros Hra. unfold ev_loop_oneshot. simpl.
  set (evs := libev_reports ios timer st).
  destruct (dispatch_defined blk evs (emit (E_ev_loop (ev_loop (sel st)) evs) st) Hra)
    as [st' E].
  exists st'. split; [done|].
  destruct (dispatch_trace _ _ _ _ E) as (rs & Ht & Hrs).
  destruct (dispatch_wakeup_state _ _ _ _ E) as [Hs Hp].
  pose proof (dispatch_reported _ _ _ _ E) as Hr.
  pose proof (wakeup_fires_reports ios timer st) as Hw. fold evs in Hw.
  split; [|split; [|split]].
  - intros ->. destruct Hr as [_ ->]. simpl. destruct (Hra eq_refl) as [a ->]. by eexists.
  - rewrite Ht. simpl. rewrite !interruptions_app, (interruptions_reads rs Hrs).
    simpl. rewrite Hw. lia.
  - rewrite Hp, Hw. simpl. destruct (0 <? pipe st)%nat eqn:E0; [done|].
    apply Nat.ltb_ge in E0. simpl. lia.
  - rewrite Hs, Hw. simpl. by destruct (0 <? pipe st)%nat.
Qed.


Lemma wakeups_in_open capacity n st :
  closed (sel st) = false →
  (pipe st ≤ capacity)%nat →
  sel (wakeups_in capacity n st).1 = sel st ∧
  pipe (wakeups_in capacity n st).1 = Nat.min (pipe st + n) capacity ∧
  (wakeups_in capacity n st).2 = (pipe st + n - capacity)%nat ∧
  trace (wakeups_in capacity n st).1
  = trace st ++ replicate (Nat.min (pipe st + n) capacity - pipe st)
                          (E_write (wakeup_writer (sel st)) 1).
Proof.
  revert st. induction n as [|n IH]; intros st Hc Hp.
  - simpl. replace (Nat.min (pipe st + 0) capacity - pipe st)%nat with 0%nat by lia.
    simpl. rewrite app_nil_r. repeat split; lia.
  - cbn [wakeups_in]. unfold NIO_Selector_wakeup_in, write_byte. rewrite Hc.
    destruct (pipe st <? capacity)%nat eqn:E.
    + apply Nat.ltb_lt in E. cbn [after].
      match goal with |- context [wakeups_in capacity n ?s] =>
        assert (pipe s = S (pipe st)) as Eps by done;
        assert (sel s = sel st) as Ess by done;
        assert (trace s = trace st ++ [E_write (wakeup_writer (sel st)) 1]) as Ets by done;
        destruct (IH s) as (E1 & E2 & E3 & E4); [done|lia|]
      end.
      rewrite E1, E2, E3, E4, Eps, Ess, Ets.
      replace (Nat.min (pipe st + S n) capacity - pipe st)%nat
        with (S (Nat.min (S (pipe st) + n) capacity - S (pipe st))) by lia.
      cbn [replicate]. rewrite <- app_assoc. repeat split; try done; lia.
    + apply Nat.ltb_ge in E.
      destruct (IH st Hc Hp) as (E1 & E2 & E3 & E4).
      destruct (wakeups_in capacity n st) as [st2 parked]. simpl in *.
      rewrite E1, E2, E3, E4.
      replace (Nat.min (pipe st + S n) capacity - pipe st)%nat
        with (Nat.min (pipe st + n) capacity - pipe st)%nat by lia.
      repeat split; try done; lia.
Qed.

(** With room for every byte, nobody is parked: the calls are those of
    [wakeups]. *)
Lemma wakeups_in_room capacity n st :
  closed (sel st) = false →
  (pipe st + n ≤ capacity)%nat →
  wakeups_in capacity n st = (wakeups n st, 0%nat).
Proof.
  revert st. induction n as [|n IH]; intros st Hc Hp; [done|].
  cbn [wakeups_in wakeups]. unfold NIO_Selector_wakeup_in, NIO_Selector_wakeup, write_byte.
  rewrite Hc.
  assert ((pipe st <? capacity)%nat = true) as -> by (apply Nat.ltb_lt; lia).
  cbn [after]. apply IH; [done|simpl; lia].
Qed.

(** A caller parked in [write] has not written its byte when the loop runs:
    on a pipe that one wakeup more than it holds has been aimed at, the
    byte of the last caller goes in after the callback has read the pipe
    empty, and the next [ev_loop] call runs the callback again. *)
Lemma late_write_interrupts_again capacity blk ios timer ios' timer' st :
  closed (sel st) = false →
  pipe st = 0%nat →
  (blk = false → is_Some (ready_array (sel st))) →
  (0 < capacity)%nat →
  (wakeups_in capacity (S capacity) st).2 = 1%nat ∧
  ∃ st1 st2 st3,
    ev_loop_oneshot blk
      (mkSlice (libev_reports ios timer (wakeups_in capacity (S capacity) st).1) 0%Q)
      (wakeups_in capacity (S capacity) st).1 = Some st1 ∧
    resume_writes capacity 1 st1 = (st2, 0%nat) ∧
    pipe st2 = 1%nat ∧
    ev_loop_oneshot blk (mkSlice (libev_reports ios' timer' st2) 0%Q) st2 = Some st3 ∧
    interruptions (trace st3) = (interruptions (trace st) + 2)%nat.
Proof.
  intros Hc Hp Hra Hcap.
  destruct (wakeups_in_open capacity (S capacity) st Hc) as (Es & Ep & Ek & Et); [lia|].
  rewrite Hp in Ep, Ek, Et. split; [lia|].
  set (s0 := (wakeups_in capacity (S capacity) st).1) in *.
  assert (blk = false → is_Some (ready_array (sel s0))) as Hra0 by (by rewrite Es).
  destruct (iteration_interrupts blk ios timer s0 Hra0) as (st1 & E1 & Hra1 & I1 & P1 & S1).
  assert ((0 <? pipe s0)%nat = true) as Hpos by (apply Nat.ltb_lt; lia).
  rewrite Hpos in I1.
  set (st2 := set_pipe (S (pipe st1)) (emit (E_write (wakeup_writer (sel st1)) 1) st1)).
  assert (resume_writes capacity 1 st1 = (st2, 0%nat)) as E2.
  { simpl. unfold write_byte.
    assert ((pipe st1 <? capacity)%nat = true) as -> by (apply Nat.ltb_lt; lia). done. }
  assert (blk = false → is_Some (ready_array (sel st2))) as Hra2 by done.
  destruct (iteration_interrupts blk ios' timer' st2 Hra2) as (st3 & E3 & _ & I3 & _ & _).
  exists st1, st2, st3. split; [done|]. split; [done|]. split; [simpl; lia|]. split; [done|].
  rewrite I3. simpl. rewrite interruptions_app, I1, Et, interruptions_app, interruptions_writes.
  simpl. lia.
Qed.



(** ** The selector is idle between calls *)

Lemma back_in_impl {A} (P Q : state → Prop) (r : result A) :
  (∀ s, P s → Q s) → back_in P r → back_in Q r.
Proof. destruct r; simpl; auto. Qed.

Lemma ends_in_back_in {A} (P : state → Prop) (r : result A) :
  ends_in P r → back_in P r.
Proof. by destruct r. Qed.

Lemma synchronize_back_in (P : state → Prop) me func st :
  (∀ s l, P s → P (set_lock l s)) →
  (∀ s t, P s → P (set_lock_holder t s)) →
  (∀ s, P s → back_in P (func s)) →
  P st → back_in P (NIO_Selector_synchronize me func st).
Proof.
  intros Hl Hh Hf HP. unfold NIO_Selector_synchronize.
  destruct (decide (lock_holder st ≠ Some me)).
  - unfold Mutex_lock.
    destruct (lock st) as [owner|]; [by destruct (decide (owner = me))|].
    unfold rb_ensure.
    match goal with |- context [func ?s] =>
      assert (P s) as HPs by auto; specialize (Hf s HPs); destruct (func s) as [v s1|e s1|s1| |s1]
    end; simpl in *; try done.
    all: unfold NIO_Selector_unlock, Mutex_unlock; simpl;
      destruct (lock s1) as [o|]; [destruct (decide (o = me))|]; simpl; auto.
  - specialize (Hf st HP). by destruct (func st).
Qed.

Lemma busy_wait_no_raise blk timeout t0 slices st :
  timeout_ok timeout →
  match busy_wait blk timeout t0 slices st with
  | Raise _ _ | NoValue _ => False
  | _ => True
  end.
Proof.
  intros Hok. revert st. induction slices as [|sl slices IH]; intros st; simpl;
    destruct (selecting (sel st) && (ready_count (sel st) =? 0)); try done.
  destruct (ev_loop_oneshot blk sl st) as [st1|]; [|done].
  destruct Hok as [->|[t Ht]]; [apply IH|].
  destruct timeout; simpl in *; try done;
    match goal with |- context [dbl_ge ?a ?b] => destruct (dbl_ge a b) end;
    try done; apply IH.
Qed.

Lemma run_no_raise cfg blk timeout env st :
  timeout_ok timeout →
  match NIO_Selector_run cfg blk timeout env st with
  | Raise _ _ | NoValue _ => False
  | _ => True
  end.
Proof.
  intros Hok. unfold NIO_Selector_run. destruct cfg.
  - assert (∀ e,
      match
        match ev_slices env with
        | [] => Wait (emit e (with_sel (set_selecting true) st))
        | sl :: _ =>
            match ev_loop_oneshot blk sl (emit e (with_sel (set_selecting true) st)) with
            | Some st2 => run_finish st2
            | None => Abort
            end
        end
      with Raise _ _ | NoValue _ => False | _ => True end) as Hgo.
    { intros e. destruct (ev_slices env); [done|].
      by destruct (ev_loop_oneshot _ _ _). }
    destruct Hok as [->|[t Ht]]; [apply Hgo|].
    destruct timeout; simpl in *; try done; apply Hgo.
  - match goal with
    | |- context [busy_wait ?b ?t ?s ?sl ?x] =>
        pose proof (busy_wait_no_raise b t s sl x Hok) as Hb;
        destruct (busy_wait b t s sl x)
    end; done.
Qed.

Lemma select_synchronized_idle cfg blk timeout env st :
  timeout_ok timeout →
  Z.of_nat (length (total_io (ev_slices env))) ≤ INT_MAX →
  idle st →
  back_in idle (NIO_Selector_select_synchronized cfg blk timeout env st).
Proof.
  intros Hok Hmax Hidle.
  destruct (NIO_Selector_select_synchronized cfg blk timeout env st)
    as [v st'|e st'|st'| |st'] eqn:E; simpl; try done.
  - destruct (select_synchronized_collects cfg blk timeout env st v st' Hidle Hmax E)
      as (ms & _ & _ & Hra & Hc & _).
    by split.
  - unfold NIO_Selector_select_synchronized in E.
    match type of E with context [NIO_Selector_run ?c ?b ?t ?e ?x] =>
      pose proof (run_no_raise c b t e x Hok) as Hr;
      destruct (NIO_Selector_run c b t e x) as [ready s1| | | |]
    end; try done.
    by destruct (0 <? ready); [destruct blk|].
  - unfold NIO_Selector_select_synchronized in E.
    match type of E with context [NIO_Selector_run ?c ?b ?t ?e ?x] =>
      pose proof (run_no_raise c b t e x Hok) as Hr;
      destruct (NIO_Selector_run c b t e x) as [ready s1| | | |]
    end; try done.
    by destruct (0 <? ready); [destruct blk|].
Qed.

(** A new selector is idle, and it is idle again whenever a method hands
    control back, as long as the block given to [select] returns and fewer
    than 2^31 Monitors fire in a [select]. *)
Lemma idle_between_calls cfg me c st :
  (∀ blk timeout env, c = call_select blk timeout env →
     Z.of_nat (length (total_io (ev_slices env))) ≤ INT_MAX) →
  idle st → back_in idle (perform cfg me c st).
Proof.
  intros Hmax Hidle. destruct c as [io i|io|io|blk timeout env| | |]; simpl.
  - apply synchronize_back_in; auto. intros s Hs.
    eapply back_in_impl; [|apply ends_in_back_in, register_synchronized_fields].
    intros s' (_&_&E1&E2&_). destruct Hs. split; congruence.
  - apply synchronize_back_in; auto. intros s Hs.
    eapply back_in_impl; [|apply ends_in_back_in, deregister_synchronized_fields].
    intros s' (_&_&E1&E2&_). destruct Hs. split; congruence.
  - done.
  - assert (timeout_ok timeout →
            back_in idle (NIO_Selector_synchronize me
                            (NIO_Selector_select_synchronized cfg blk timeout env) st))
      as Hgo.
    { intros Hok. apply synchronize_back_in; auto. intros s Hs.
      apply select_synchronized_idle; auto. by eapply Hmax. }
    unfold NIO_Selector_select.
    destruct timeout; simpl; try done.
    + apply Hgo. by left.
    + destruct (dbl_neg _); [done|]. apply Hgo. right. by eexists.
    + destruct (dbl_neg _); [done|]. apply Hgo. right. by eexists.
  - unfold NIO_Selector_wakeup. by destruct (closed (sel st)).
  - unfold NIO_Selector_shutdown.
    destruct (ev_loop (sel st) =? 0); simpl; by destruct (closed (sel st)).
  - done.
Qed.

Lemma new_selector_idle fd0 fd1 loop : idle (NIO_Selector_new fd0 fd1 loop).
Proof. by split. Qed.

(** ** The lock wrapper and the value of the call *)

(** A thread that takes the lock hands on what the body returned or
    raised, and has released the lock by then. *)
Lemma synchronize_acquiring_result me func st :
  lock st = None → lock_holder st = None →
  (∀ s, ends_in (λ s', lock s' = lock s ∧ lock_holder s' = lock_holder s) (func s)) →
  match func (set_lock_holder (Some me) (set_lock (Some me) st)) with
  | Return v s1 =>
      NIO_Selector_synchronize me func st
      = Return v (set_lock None (set_lock_holder None s1))
  | Raise e s1 =>
      NIO_Selector_synchronize me func st
      = Raise e (set_lock None (set_lock_holder None s1))
  | _ => True
  end.
Proof.
  intros Hl Hh Hf. rewrite synchronize_free_lock by done. unfold rb_ensure.
  specialize (Hf (set_lock_holder (Some me) (set_lock (Some me) st))).
  destruct (func _) as [v s1|e s1|s1| |s1]; simpl in *; try done.
  all: destruct Hf as [E1 E2]; unfold NIO_Selector_unlock, Mutex_unlock; simpl;
    rewrite E1; by destruct (decide (me = me)).
Qed.

(** A thread that holds the lock runs the body and keeps nothing of what it
    returned. *)
Lemma synchronize_reentrant_result me func st :
  lock_holder st = Some me →
  NIO_Selector_synchronize me func st
  = match func st with
    | Return _ s1 => NoValue s1
    | r => r
    end.
Proof.
  intros Hh. unfold NIO_Selector_synchronize.
  destruct (decide (lock_holder st ≠ Some me)); [done|]. done.
Qed.

(** C6 (the code departs from the claim).  Thread 7 is inside the critical
    section (say in the block of a [select]) and registers IO 11: the body
    creates Monitor 1 and returns it, and the wrapper reaches its closing
    brace without a [return], so the caller of [register] is handed no
    defined value. *)
Theorem reentrant_register_loses_monitor :
  ∃ st',
    NIO_Selector_register_synchronized 11%nat 1%nat sample_held = Return (Obj 1%nat) st' ∧
    NIO_Selector_register 7%nat 11%nat 1%nat sample_held = NoValue st' ∧
    lock_holder st' = Some 7%nat.
Proof. eexists. vm_compute. repeat split; reflexivity. Qed.

(** ** A closed selector *)

(** Neither [register] nor [select] reads [closed]. *)
Lemma register_synchronized_any_closed io interests st b :
  NIO_Selector_register_synchronized io interests (with_sel (set_closed b) st)
  = match NIO_Selector_register_synchronized io interests st with
    | Return v s => Return v (with_sel (set_closed b) s)
    | Raise e s => Raise e (with_sel (set_closed b) s)
    | NoValue s => NoValue (with_sel (set_closed b) s)
    | Abort => Abort
    | Wait s => Wait (with_sel (set_closed b) s)
    end.
Proof.
  unfold NIO_Selector_register_synchronized. simpl.
  by destruct (selectables st !! io).
Qed.

(** C5 (the code departs from the claim).  After [close], [wakeup] raises
    IOError, but [register] succeeds: it creates Monitor 0 and stores it in
    the table; and [select] goes on to call libev with the loop handle that
    [close] set to 0. *)
Theorem closed_selector_registers_and_selects :
  closed (sel sample_closed) = true ∧
  ev_loop (sel sample_closed) = 0 ∧
  NIO_Selector_wakeup sample_closed = Raise (IOError "selector is closed") sample_closed ∧
  (∃ st', NIO_Selector_register 7%nat 10%nat 1%nat sample_closed = Return (Obj 0%nat) st' ∧
          selectables sample_closed !! 10%nat = None ∧
          selectables st' !! 10%nat = Some 0%nat) ∧
  (∃ st', NIO_Selector_select HAVE_RB_THREAD_BLOCKING_REGION 7%nat false Qnil
            (mkEngine 0 [mkSlice [EvTimer] 0]) sample_closed = Return Qnil st' ∧
          trace st' = trace sample_closed ++ [E_ev_timer_stop 0; E_ev_loop 0 [EvTimer]]) ∧
  (∃ st', NIO_Selector_select GREEN_THREADS 7%nat false (Fixnum 0)
            (mkEngine 0 [mkSlice [EvTimer] 1]) sample_closed = Return Qnil st' ∧
          loop_runs (trace st') = [0]).
Proof.
  split; [reflexivity|]. split; [reflexivity|]. split; [reflexivity|].
  split; [|split].
  - eexists. vm_compute. repeat split; reflexivity.
  - eexists. vm_compute. repeat split; reflexivity.
  - eexists. vm_compute. repeat split; reflexivity.
Qed.

(** ** The lock between calls *)

Lemma select_synchronized_lock cfg blk timeout env s :
  ends_in (λ s', lock s' = lock s ∧ lock_holder s' = lock_holder s)
          (NIO_Selector_select_synchronized cfg blk timeout env s).
Proof.
  eapply ends_in_impl; [|apply select_synchronized_outside].
  by intros s' (_&_&_&_&_&?&?).
Qed.


Lemma new_selector_lock_consistent fd0 fd1 loop :
  lock_consistent (NIO_Selector_new fd0 fd1 loop).
Proof. done. Qed.

(** * Further properties of the code *)

(** ** The table over sequences of calls *)

Lemma table_call_step cfg me c st :
  lock st = None → lock_holder st = None → table_call c →
  lock (after (perform cfg me c st) st) = None ∧
  lock_holder (after (perform cfg me c st) st) = None ∧
  dom (selectables (after (perform cfg me c st) st))
  = net_registered [(me, c)] (dom (selectables st)).
Proof.
  intros Hl Hh Hc. destruct c as [io i|io|io| | | |]; try done; simpl.
  - rewrite register_free_lock by done.
    unfold NIO_Selector_register_synchronized.
    destruct (selectables st !! io) as [m|] eqn:E; simpl.
    + split; [done|]. split; [done|].
      assert (io ∈ dom (selectables st)) as Hin by (apply elem_of_dom; by eexists).
      apply set_eq. intros x. rewrite elem_of_union, elem_of_singleton.
      split; [by right | by intros [->|?]].
    + split; [done|]. split; [done|]. by rewrite dom_insert_L.
  - rewrite deregister_free_lock by done.
    unfold NIO_Selector_deregister_synchronized.
    destruct (selectables st !! io) as [m|] eqn:E; simpl.
    + split; [done|]. split; [done|]. by rewrite dom_delete_L.
    + split; [done|]. split; [done|].
      assert (io ∉ dom (selectables st)) as Hout by (by apply not_elem_of_dom).
      apply set_eq. intros x. rewrite elem_of_difference, elem_of_singleton.
      split; [|by intros [? _]]. intros Hx. split; [done|]. by intros ->.
Qed.

(** X1.  Whatever threads call [register], [deregister] and [registered?]
    one after the other on a selector whose lock is free, the handles in
    the table afterwards are those before, plus the ones registered, minus
    the ones deregistered, in call order (a second [register] of a handle
    and a [deregister] of an absent one change nothing); [registered?]
    answers membership in that set, and the lock is free again. *)
Theorem table_tracks_net_effect cfg cs st :
  lock st = None → lock_holder st = None →
  Forall (λ p, table_call p.2) cs →
  dom (selectables (run_calls cfg cs st)) = net_registered cs (dom (selectables st)) ∧
  (∀ io, NIO_Selector_is_registered io (run_calls cfg cs st)
         = Return (if decide (io ∈ net_registered cs (dom (selectables st)))
                   then Qtrue else Qfalse)
                  (run_calls cfg cs st)) ∧
  lock (run_calls cfg cs st) = None ∧
  lock_holder (run_calls cfg cs st) = None.
Proof.
  intros Hl Hh Hcs.
  assert (dom (selectables (run_calls cfg cs st)) = net_registered cs (dom (selectables st)) ∧
          lock (run_calls cfg cs st) = None ∧
          lock_holder (run_calls cfg cs st) = None) as (Hdom & Hl' & Hh').
  { revert st Hl Hh. induction Hcs as [|[me c] cs Hc _ IH]; intros st Hl Hh; [done|].
    destruct (table_call_step cfg me c st Hl Hh Hc) as (Hl1 & Hh1 & Hd1).
    cbn [run_calls].
    destruct (IH _ Hl1 Hh1) as (Hd & ? & ?). split; [|done].
    rewrite Hd, Hd1. simpl in *.
    destruct c; try done. }
  split; [done|]. split; [|done].
  intros io. unfold NIO_Selector_is_registered. rewrite <- Hdom.
  destruct (selectables (run_calls cfg cs st) !! io) as [m|] eqn:E.
  - rewrite decide_True; [done|]. apply elem_of_dom. by eexists.
  - rewrite decide_False; [done|]. by apply not_elem_of_dom.
Qed.

Lemma table_tracks_net_effect_witness :
  dom (selectables
         (run_calls GREEN_THREADS
            [(7%nat, call_register 10%nat 1%nat); (8%nat, call_register 11%nat 1%nat);
             (7%nat, call_register 10%nat 2%nat); (9%nat, call_deregister 10%nat);
             (9%nat, call_is_registered 11%nat)]
            sample_open))
  = net_registered
      [(7%nat, call_register 10%nat 1%nat); (8%nat, call_register 11%nat 1%nat);
       (7%nat, call_register 10%nat 2%nat); (9%nat, call_deregister 10%nat);
       (9%nat, call_is_registered 11%nat)]
      (dom (selectables sample_open)).
Proof.
  apply (table_tracks_net_effect GREEN_THREADS _ sample_open);
    [reflexivity | reflexivity | repeat constructor].
Defined.

(** ** Register, deregister, register again *)

(** X2.  Registering a handle and deregistering it again gives back the
    Monitor that [register] returned, closed with [false], and the table
    it started from; registering the handle once more then yields another
    Monitor, not the closed one. *)
Theorem register_deregister_round_trip io interests interests' st :
  selectables st !! io = None →
  ∃ m st1 st2 m' st3,
    NIO_Selector_register_synchronized io interests st = Return (Obj m) st1 ∧
    NIO_Selector_deregister_synchronized io st1 = Return (Obj m) st2 ∧
    selectables st2 = selectables st ∧
    monitors st2 !! m = Some (Monitor_close false (Monitor_new io interests)) ∧
    NIO_Selector_register_synchronized io interests' st2 = Return (Obj m') st3 ∧
    m' ≠ m ∧
    selectables st3 !! io = Some m' ∧
    monitors st3 !! m = Some (Monitor_close false (Monitor_new io interests)).
Proof.
  intros Hnone.
  unfold NIO_Selector_register_synchronized at 1. rewrite Hnone.
  set (m := fresh (dom (monitors st))).
  eexists m, _, _, _, _. split; [done|].
  unfold NIO_Selector_deregister_synchronized. simpl.
  rewrite lookup_insert_eq. simpl. split; [done|].
  assert (delete io (<[io:=m]> (selectables st)) = selectables st) as Hdel.
  { apply map_eq. intros k. destruct (decide (k = io)) as [->|Hne].
    - by rewrite lookup_delete_eq.
    - by rewrite lookup_delete_ne, lookup_insert_ne. }
  split; [exact Hdel|].
  assert (alter (Monitor_close false) m (<[m:=Monitor_new io interests]> (monitors st)) !! m
          = Some (Monitor_close false (Monitor_new io interests))) as Hm
    by (by rewrite lookup_alter_eq, lookup_insert_eq).
  split; [exact Hm|].
  unfold NIO_Selector_register_synchronized. simpl. rewrite Hdel, Hnone. simpl.
  split; [done|].
  match goal with |- fresh (dom ?ms) ≠ m ∧ _ =>
    assert (fresh (dom ms) ≠ m) as Hne;
      [ intros E; pose proof (is_fresh (dom ms)) as Hf;
        rewrite E in Hf; apply Hf, elem_of_dom; by eexists | ]
  end.
  split; [exact Hne|]. simpl.
  split; [by rewrite lookup_insert_eq|].
  by rewrite lookup_insert_ne.
Qed.

Lemma register_deregister_round_trip_witness :
  selectables sample_open !! 10%nat = None ∧
  ∃ m st1 st2,
    NIO_Selector_register_synchronized 10%nat 1%nat sample_open = Return (Obj m) st1 ∧
    NIO_Selector_deregister_synchronized 10%nat st1 = Return (Obj m) st2 ∧
    selectables st2 = selectables sample_open.
Proof.
  split; [reflexivity|].
  destruct (register_deregister_round_trip 10%nat 1%nat 2%nat sample_open eq_refl)
    as (m & st1 & st2 & _ & _ & E1 & E2 & E3 & _).
  by exists m, st1, st2.
Defined.

(** ** What a [select] preserves

    A property kept by the three fields [select] writes, by the calls it
    makes into libev and by every callback is kept by [select]. *)
Section SelectPreserves.
Variable P : state → Prop.
Hypothesis P_selecting : ∀ s b, P s → P (with_sel (set_selecting b) s).
Hypothesis P_ready_count : ∀ s n, P s → P (with_sel (set_ready_count n) s).
Hypothesis P_ready_array : ∀ s a, P s → P (with_sel (set_ready_array a) s).
Hypothesis P_engine : ∀ s e, is_engine_call e → P s → P (emit e s).
Hypothesis P_callback : ∀ blk e s s', callback blk e s = Some s' → P s → P s'.

Local Hint Extern 1 (is_engine_call _) => exact I : core.

Lemma dispatch_preserves blk evs s s' :
  dispatch blk evs s = Some s' → P s → P s'.
Proof using P_callback.
  revert s. induction evs as [|e evs IH]; simpl; intros s H HP.
  - by injection H as <-.
  - destruct (callback blk e s) as [s1|] eqn:E; [|done]. eauto.
Qed.

Lemma ev_loop_oneshot_preserves blk sl s s' :
  ev_loop_oneshot blk sl s = Some s' → P s → P s'.
Proof using P_callback P_engine.
  unfold ev_loop_oneshot. intros H HP.
  eapply dispatch_preserves; [exact H|]. by apply P_engine.
Qed.

Lemma busy_wait_preserves blk timeout t0 slices s :
  P s → ends_in P (busy_wait blk timeout t0 slices s).
Proof using P_callback P_engine.
  revert s. induction slices as [|sl slices IH]; intros s HP; simpl;
    destruct (selecting (sel s) && (ready_count (sel s) =? 0)); try done.
  destruct (ev_loop_oneshot blk sl s) as [s1|] eqn:E1; [|done].
  pose proof (ev_loop_oneshot_preserves _ _ _ _ E1 HP) as HP1.
  assert (P (emit (E_ev_now (ev_loop (sel s1)) (sl_now sl)) s1)) as HP2
    by (by apply P_engine).
  destruct timeout; simpl; auto;
    match goal with |- context [dbl_ge ?a ?b] => destruct (dbl_ge a b) end;
    simpl; auto.
Qed.

Lemma run_preserves cfg blk timeout env s :
  P s → ends_in P (NIO_Selector_run cfg blk timeout env s).
Proof using All.
  intros HP. unfold NIO_Selector_run. destruct cfg.
  - assert (∀ e, is_engine_call e → ends_in P
      match ev_slices env with
      | [] => Wait (emit e (with_sel (set_selecting true) s))
      | sl :: _ =>
          match ev_loop_oneshot blk sl (emit e (with_sel (set_selecting true) s)) with
          | Some st2 => run_finish st2
          | None => Abort
          end
      end) as Hgo.
    { intros e He.
      assert (P (emit e (with_sel (set_selecting true) s))) as HP1 by auto.
      destruct (ev_slices env) as [|sl ?]; simpl; [done|].
      destruct (ev_loop_oneshot _ _ _) as [st2|] eqn:E2; [|done].
      simpl. eauto using ev_loop_oneshot_preserves. }
    destruct timeout; simpl; auto; by apply Hgo.
  - match goal with
    | |- context [busy_wait ?b ?t ?s0 ?sl ?x] =>
        assert (P x) as HPx by auto;
        pose proof (busy_wait_preserves b t s0 sl x HPx) as Hb;
        destruct (busy_wait b t s0 sl x) as [[] st3|e st3|st3| |st3]
    end; simpl in *; auto.
Qed.

Lemma select_synchronized_preserves cfg blk timeout env s :
  P s → ends_in P (NIO_Selector_select_synchronized cfg blk timeout env s).
Proof using All.
  intros HP. unfold NIO_Selector_select_synchronized.
  match goal with
  | |- context [NIO_Selector_run ?c ?b ?t ?e ?x] =>
      assert (P x) as HPx by (destruct blk; auto);
      pose proof (run_preserves c b t e x HPx) as Hr;
      destruct (NIO_Selector_run c b t e x) as [ready st1|e' st1|st1| |st1]
  end; simpl in *; auto.
  destruct (0 <? ready); [destruct blk|]; simpl; auto.
Qed.

Hypothesis P_lock : ∀ s l, P s → P (set_lock l s).
Hypothesis P_lock_holder : ∀ s t, P s → P (set_lock_holder t s).

Lemma select_preserves cfg me blk timeout env s :
  P s → ends_in P (NIO_Selector_select cfg me blk timeout env s).
Proof using All.
  intros HP.
  assert (ends_in P (NIO_Selector_synchronize me
                       (NIO_Selector_select_synchronized cfg blk timeout env) s)) as Hgo.
  { apply synchronize_ends_in; auto. intros s0. apply select_synchronized_preserves. }
  unfold NIO_Selector_select.
  destruct timeout; simpl; auto; by destruct (dbl_neg _).
Qed.
End SelectPreserves.

Lemma ends_in_after {A} (P : state → Prop) (r : result A) st :
  ends_in P r → P st → P (after r st).
Proof. by destruct r. Qed.

Lemma run_calls_preserves (P : state → Prop) cfg cs st :
  (∀ me c s, P s → ends_in P (perform cfg me c s)) →
  P st → P (run_calls cfg cs st).
Proof.
  intros Hstep. revert st. induction cs as [|[me c] cs IH]; intros st HP; [done|].
  simpl. apply IH, ends_in_after; auto.
Qed.

(** ** The table and its Monitors *)

Lemma table_wf_callback blk e s s' :
  callback blk e s = Some s' → table_wf s → table_wf s'.
Proof.
  intros H Hwf.
  assert (∀ m r io m0,
            selectables s !! io = Some m0 →
            ∃ mon, alter (Monitor_set_revents r) m (monitors s) !! m0 = Some mon ∧
                   mon_io mon = io ∧ mon_close_calls mon = []) as Halter.
  { intros m r io m0 Hio. destruct (Hwf io m0 Hio) as (mon & Hm & Hmio & Hmc).
    destruct (decide (m = m0)) as [->|Hne].
    - rewrite lookup_alter_eq, Hm. by eexists.
    - rewrite lookup_alter_ne by done. by eexists. }
  destruct e as [m r| |]; simpl in H.
  - unfold NIO_Selector_monitor_callback in H. simpl in H.
    destruct blk; [|destruct (ready_array (sel s)); [|done]];
      injection H as <-; intros io m0; simpl; apply Halter.
  - injection H as <-. exact Hwf.
  - by injection H as <-.
Qed.

Lemma table_wf_injective st io1 io2 m :
  table_wf st →
  selectables st !! io1 = Some m → selectables st !! io2 = Some m → io1 = io2.
Proof.
  intros Hwf H1 H2.
  destruct (Hwf _ _ H1) as (mon1 & Hm1 & <- & _).
  destruct (Hwf _ _ H2) as (mon2 & Hm2 & <- & _).
  congruence.
Qed.

Lemma table_wf_register io interests s :
  table_wf s → ends_in table_wf (NIO_Selector_register_synchronized io interests s).
Proof.
  intros Hwf. unfold NIO_Selector_register_synchronized.
  destruct (selectables s !! io) as [m|] eqn:E; simpl; [done|].
  intros io' m'. simpl.
  pose proof (is_fresh (dom (monitors s))) as Hfresh.
  destruct (decide (io' = io)) as [->|Hne].
  - rewrite lookup_insert_eq. intros [= <-]. rewrite lookup_insert_eq. by eexists.
  - rewrite lookup_insert_ne by done. intros Hio'.
    destruct (Hwf _ _ Hio') as (mon & Hm & ? & ?).
    rewrite lookup_insert_ne; [by eexists|].
    intros <-. apply Hfresh, elem_of_dom. by eexists.
Qed.

Lemma table_wf_deregister io s :
  table_wf s → ends_in table_wf (NIO_Selector_deregister_synchronized io s).
Proof.
  intros Hwf. unfold NIO_Selector_deregister_synchronized.
  destruct (selectables s !! io) as [m|] eqn:E; simpl; [|done].
  intros io' m'. simpl.
  destruct (decide (io' = io)) as [->|Hne]; [by rewrite lookup_delete_eq|].
  rewrite lookup_delete_ne by done. intros Hio'.
  destruct (Hwf _ _ Hio') as (mon & Hm & ? & ?).
  rewrite lookup_alter_ne; [by eexists|].
  intros <-. apply Hne. by eapply table_wf_injective.
Qed.

Lemma table_wf_perform cfg me c s :
  table_wf s → ends_in table_wf (perform cfg me c s).
Proof.
  intros Hwf. destruct c as [io i|io|io|blk timeout env| | |]; simpl.
  - apply synchronize_ends_in; auto. intros s0. apply table_wf_register.
  - apply synchronize_ends_in; auto. intros s0. apply table_wf_deregister.
  - done.
  - apply select_preserves; auto. apply table_wf_callback.
  - unfold NIO_Selector_wakeup. by destruct (closed (sel s)).
  - unfold NIO_Selector_shutdown.
    destruct (ev_loop (sel s) =? 0); simpl; by destruct (closed (sel s)).
  - done.
Qed.

(** X3.  Whatever calls are made on a new selector, by whatever threads and
    however they end, every Monitor in the table exists, was built for the
    handle it is stored under and has not been closed by the selector; so
    no two handles share a Monitor. *)
Theorem table_stays_well_formed cfg cs fd0 fd1 loop :
  table_wf (run_calls cfg cs (NIO_Selector_new fd0 fd1 loop)) ∧
  ∀ io1 io2 m,
    selectables (run_calls cfg cs (NIO_Selector_new fd0 fd1 loop)) !! io1 = Some m →
    selectables (run_calls cfg cs (NIO_Selector_new fd0 fd1 loop)) !! io2 = Some m →
    io1 = io2.
Proof.
  assert (table_wf (run_calls cfg cs (NIO_Selector_new fd0 fd1 loop))) as Hwf.
  { apply run_calls_preserves.
    - intros me c s. apply table_wf_perform.
    - intros io m Hio. simpl in Hio. by apply lookup_empty_Some in Hio. }
  split; [done|]. intros io1 io2 m. by apply table_wf_injective.
Qed.

(** ** Resources *)

Lemma closes_app tr1 tr2 : closes (tr1 ++ tr2) = closes tr1 ++ closes tr2.
Proof.
  induction tr1 as [|e tr1 IH]; [done|]. destruct e; simpl; by rewrite ?IH.
Qed.

Lemma destroys_app tr1 tr2 : destroys (tr1 ++ tr2) = destroys tr1 ++ destroys tr2.
Proof.
  induction tr1 as [|e tr1 IH]; [done|]. destruct e; simpl; by rewrite ?IH.
Qed.

Lemma closes_reads rs : Forall is_read rs → closes rs = [].
Proof. induction 1 as [|e rs He _ IH]; [done|]. by destruct e. Qed.

Lemma destroys_reads rs : Forall is_read rs → destroys rs = [].
Proof. induction 1 as [|e rs He _ IH]; [done|]. by destruct e. Qed.

Lemma resources_once_trace fd0 fd1 loop s s' :
  sel s' = sel s →
  closes (trace s') = closes (trace s) →
  destroys (trace s') = destroys (trace s) →
  resources_once fd0 fd1 loop s → resources_once fd0 fd1 loop s'.
Proof. unfold resources_once. intros -> -> ->. done. Qed.

Lemma resources_once_sel fd0 fd1 loop s f :
  (∀ x, wakeup_reader (f x) = wakeup_reader x) →
  (∀ x, wakeup_writer (f x) = wakeup_writer x) →
  (∀ x, closed (f x) = closed x) →
  (∀ x, ev_loop (f x) = ev_loop x) →
  resources_once fd0 fd1 loop s → resources_once fd0 fd1 loop (with_sel f s).
Proof.
  unfold resources_once. simpl. intros H1 H2 H3 H4. by rewrite H1, H2, H3, H4.
Qed.

Lemma resources_once_callback fd0 fd1 loop blk e s s' :
  callback blk e s = Some s' →
  resources_once fd0 fd1 loop s → resources_once fd0 fd1 loop s'.
Proof.
  intros H.
  destruct (callback_outside _ _ _ _ H) as (Hc & Hl & Hr & Hw & _).
  destruct (callback_trace _ _ _ _ H) as (rs & Ht & Hrs).
  unfold resources_once.
  rewrite Hc, Hl, Hr, Hw, Ht, closes_app, destroys_app,
    (closes_reads rs Hrs), (destroys_reads rs Hrs), !app_nil_r.
  done.
Qed.

Lemma resources_once_engine fd0 fd1 loop s e :
  is_engine_call e →
  resources_once fd0 fd1 loop s → resources_once fd0 fd1 loop (emit e s).
Proof.
  intros He. apply resources_once_trace; simpl; [done| |].
  - rewrite closes_app. destruct e; simpl in *; try done; by rewrite app_nil_r.
  - rewrite destroys_app. destruct e; simpl in *; try done; by rewrite app_nil_r.
Qed.

Lemma resources_once_shutdown fd0 fd1 loop s :
  loop ≠ 0 →
  resources_once fd0 fd1 loop s →
  resources_once fd0 fd1 loop (NIO_Selector_shutdown s) ∧
  closed (sel (NIO_Selector_shutdown s)) = true.
Proof.
  intros Hloop (Hr & Hw & H). split; [|apply shutdown_closed].
  unfold NIO_Selector_shutdown, resources_once.
  destruct (closed (sel s)) eqn:Hc.
  - destruct H as (Hl & Hcl & Hd). rewrite Hl. simpl. rewrite !Hc. auto.
  - destruct H as (Hl & Hcl & Hd).
    destruct (ev_loop (sel s) =? 0) eqn:E0; [lia|]. simpl. rewrite Hc. simpl.
    rewrite !closes_app, !destroys_app, Hcl, Hd, Hr, Hw, Hl. simpl. auto.
Qed.

Lemma resources_once_perform fd0 fd1 loop cfg me c s :
  loop ≠ 0 →
  resources_once fd0 fd1 loop s →
  ends_in (resources_once fd0 fd1 loop) (perform cfg me c s).
Proof.
  intros Hloop Hres.
  assert (∀ s0 s1, same_selector_fields s0 s1 →
                   resources_once fd0 fd1 loop s0 → resources_once fd0 fd1 loop s1)
    as Hsame.
  { unfold resources_once. intros s0 s1 (Ec&_&_&_&Er&Ew&El&_&_&Et).
    by rewrite Ec, Er, Ew, El, Et. }
  destruct c as [io i|io|io|blk timeout env| | |]; simpl.
  - eapply ends_in_impl; [|apply synchronize_selector_fields;
                            intros s0; apply register_synchronized_fields].
    intros s1 Hs1. by eapply Hsame.
  - eapply ends_in_impl; [|apply synchronize_selector_fields;
                            intros s0; apply deregister_synchronized_fields].
    intros s1 Hs1. by eapply Hsame.
  - done.
  - apply select_preserves.
    + intros s0 b. by apply resources_once_sel.
    + intros s0 n. by apply resources_once_sel.
    + intros s0 a. by apply resources_once_sel.
    + intros s0 e. apply resources_once_engine.
    + intros b e s0 s1. apply resources_once_callback.
    + done.
    + done.
    + done.
  - unfold NIO_Selector_wakeup. destruct (closed (sel s)); simpl; [done|].
    revert Hres. apply resources_once_trace; simpl; [done| |].
    + by rewrite closes_app, app_nil_r.
    + by rewrite destroys_app, app_nil_r.
  - by apply resources_once_shutdown.
  - done.
Qed.

(** X4.  Take a selector made with a live libev loop, let any threads make
    any calls on it ([close] zero or more times among them), and let the
    finalizer run: by then each end of the wakeup pipe has been closed
    exactly once and the loop destroyed exactly once; and as long as the
    selector was not closed nothing had been released. *)
Theorem resources_released_exactly_once cfg cs fd0 fd1 loop :
  loop ≠ 0 →
  resources_once fd0 fd1 loop (run_calls cfg cs (NIO_Selector_new fd0 fd1 loop)) ∧
  closes (NIO_Selector_free (run_calls cfg cs (NIO_Selector_new fd0 fd1 loop)))
  = [fd0; fd1] ∧
  destroys (NIO_Selector_free (run_calls cfg cs (NIO_Selector_new fd0 fd1 loop)))
  = [loop].
Proof.
  intros Hloop.
  assert (resources_once fd0 fd1 loop
            (run_calls cfg cs (NIO_Selector_new fd0 fd1 loop))) as Hres.
  { apply run_calls_preserves.
    - intros me c s. by apply resources_once_perform.
    - by repeat split. }
  split; [done|].
  destruct (resources_once_shutdown _ _ _ _ Hloop Hres) as [(_ & _ & H) Hc].
  unfold NIO_Selector_free. rewrite Hc in H. by destruct H as (_ & -> & ->).
Qed.

Lemma resources_released_exactly_once_witness :
  (1000 ≠ 0) ∧
  closes (NIO_Selector_free
            (run_calls GREEN_THREADS
               [(7%nat, call_register 10%nat 1%nat); (8%nat, call_close);
                (7%nat, call_wakeup); (8%nat, call_close)]
               (NIO_Selector_new 3 4 1000)))
  = [3; 4].
Proof.
  split; [discriminate|].
  apply (resources_released_exactly_once GREEN_THREADS _ 3 4 1000). discriminate.
Defined.

(** ** The lock around a body *)

(** X5.  Around any body that leaves the lock alone, a thread that finds
    the lock free runs the body as the holder and hands on what the body
    returned or raised, with the holder cleared and the Mutex unlocked in
    both cases; a thread that finds the lock held by another thread is
    parked before the body runs, with nothing changed. *)
Theorem synchronize_is_exception_safe me func st :
  keeps_lock func →
  (lock st = None → lock_holder st = None →
   match func (held_by me st) with
   | Return v s1 => NIO_Selector_synchronize me func st = Return v (released s1)
   | Raise e s1 => NIO_Selector_synchronize me func st = Raise e (released s1)
   | NoValue s1 => NIO_Selector_synchronize me func st = NoValue (released s1)
   | Abort => NIO_Selector_synchronize me func st = Abort
   | Wait s1 => NIO_Selector_synchronize me func st = Wait s1
   end ∧
   back_in (λ s, lock s = None ∧ lock_holder s = None)
           (NIO_Selector_synchronize me func st)) ∧
  (∀ other, other ≠ me → lock st = Some other → lock_holder st = Some other →
   NIO_Selector_synchronize me func st = Wait st).
Proof.
  intros Hf. split.
  - intros Hl Hh. rewrite synchronize_free_lock by done. unfold rb_ensure, held_by.
    specialize (Hf (set_lock_holder (Some me) (set_lock (Some me) st))).
    destruct (func _) as [v s1|e s1|s1| |s1]; simpl in *; try done.
    all: destruct Hf as [E1 E2]; unfold NIO_Selector_unlock, Mutex_unlock; simpl;
      rewrite E1; by destruct (decide (me = me)).
  - intros other Hne Hl Hh. unfold NIO_Selector_synchronize, Mutex_lock.
    rewrite Hl, Hh.
    destruct (decide (Some other ≠ Some me)) as [_|Heq].
    + by destruct (decide (other = me)).
    + destruct Heq. congruence.
Qed.

Lemma synchronize_is_exception_safe_witness :
  keeps_lock (NIO_Selector_register_synchronized 10%nat 2%nat) ∧
  NIO_Selector_synchronize 7%nat (NIO_Selector_register_synchronized 10%nat 2%nat)
    sample_registered
  = Raise (ArgumentError "this IO is already registered with selector")
      (released (held_by 7%nat sample_registered)) ∧
  NIO_Selector_synchronize 8%nat (NIO_Selector_register_synchronized 10%nat 2%nat)
    sample_held
  = Wait sample_held.
Proof.
  assert (keeps_lock (NIO_Selector_register_synchronized 10%nat 2%nat)) as Hk
    by (intros s; apply register_synchronized_lock).
  split; [exact Hk|]. split.
  - destruct (synchronize_is_exception_safe 7%nat
                (NIO_Selector_register_synchronized 10%nat 2%nat) sample_registered Hk)
      as [H _].
    destruct (H eq_refl eq_refl) as [H1 _]. exact H1.
  - apply (synchronize_is_exception_safe 8%nat
             (NIO_Selector_register_synchronized 10%nat 2%nat) sample_held Hk
           ) with (other := 7%nat); [discriminate | reflexivity | reflexivity].
Defined.

(** ** A thread parked inside [select] *)

Lemma synchronize_parked_in_body me func st s :
  keeps_lock func →
  lock st = None → lock_holder st = None →
  NIO_Selector_synchronize me func st = Wait s →
  func (held_by me st) = Wait s.
Proof.
  intros Hf Hl Hh. rewrite synchronize_free_lock by done. unfold rb_ensure, held_by.
  specialize (Hf (set_lock_holder (Some me) (set_lock (Some me) st))).
  destruct (func _) as [v s1|e s1|s1| |s1]; simpl in *; try done.
  all: destruct Hf as [E1 E2]; unfold NIO_Selector_unlock, Mutex_unlock; simpl;
    rewrite E1; by destruct (decide (me = me)).
Qed.

(** X6.  While a thread is parked in libev inside [select] (it found the
    lock free), it is the lock holder, so every synchronized method called
    by another thread parks on the Mutex without changing anything:
    [register] and [deregister] wait for the [select] to end.  [wakeup]
    takes no lock: on an open selector it still writes its byte. *)
Theorem parked_select_holds_the_lock cfg a b blk timeout env st s :
  lock st = None → lock_holder st = None → a ≠ b →
  NIO_Selector_select cfg a blk timeout env st = Wait s →
  lock s = Some a ∧ lock_holder s = Some a ∧
  (∀ func, NIO_Selector_synchronize b func s = Wait s) ∧
  (∀ io interests, NIO_Selector_register b io interests s = Wait s) ∧
  (∀ io, NIO_Selector_deregister b io s = Wait s) ∧
  (closed (sel st) = false →
   NIO_Selector_wakeup s
   = Return Qnil (set_pipe (S (pipe s)) (emit (E_write (wakeup_writer (sel s)) 1) s))).
Proof.
  intros Hl Hh Hab Hsel.
  assert (NIO_Selector_synchronize a
            (NIO_Selector_select_synchronized cfg blk timeout env) st = Wait s) as Hsync.
  { unfold NIO_Selector_select in Hsel.
    destruct timeout; simpl in Hsel; try done;
      by destruct (dbl_neg _). }
  apply synchronize_parked_in_body in Hsync; [|intros s0; apply select_synchronized_lock|done..].
  pose proof (select_synchronized_lock cfg blk timeout env (held_by a st)) as Hlock.
  pose proof (select_synchronized_outside cfg blk timeout env (held_by a st)) as Hout.
  rewrite Hsync in Hlock, Hout. unfold held_by in Hlock, Hout. simpl in Hlock, Hout.
  destruct Hlock as [El Eh]. destruct Hout as (Ec & _).
  assert (∀ func, NIO_Selector_synchronize b func s = Wait s) as Hpark.
  { intros func. unfold NIO_Selector_synchronize, Mutex_lock. rewrite El, Eh.
    destruct (decide (Some a ≠ Some b)) as [_|Heq].
    - by destruct (decide (a = b)).
    - destruct Heq. congruence. }
  split; [done|]. split; [done|]. split; [done|].
  split; [intros; apply Hpark|]. split; [intros; apply Hpark|].
  intros Hopen. unfold NIO_Selector_wakeup.
  change (closed (sel s) = closed (sel st)) in Ec. by rewrite Ec, Hopen.
Qed.

Lemma parked_select_holds_the_lock_witness :
  ∃ s, NIO_Selector_select HAVE_RB_THREAD_BLOCKING_REGION 7%nat false Qnil
         (mkEngine 0 []) sample_registered = Wait s ∧
       lock_holder s = Some 7%nat ∧
       NIO_Selector_register 8%nat 11%nat 1%nat s = Wait s.
Proof.
  eexists. split; [reflexivity|].
  destruct (parked_select_holds_the_lock HAVE_RB_THREAD_BLOCKING_REGION 7%nat 8%nat
              false Qnil (mkEngine 0 []) sample_registered _
              eq_refl eq_refl ltac:(discriminate) eq_refl)
    as (_ & Hh & _ & Hr & _).
  split; [exact Hh | apply Hr].
Defined.

(** ** How many times the loop runs *)

Lemma polled_refl s : polled 0 s s.
Proof. unfold polled. simpl. by rewrite app_nil_r. Qed.

Lemma polled_trans n m s s1 s2 :
  polled n s s1 → polled m s1 s2 → polled (n + m) s s2.
Proof.
  unfold polled. intros (A1&A2&A3&A4&A5&A6&A7) (B1&B2&B3&B4&B5&B6&B7).
  repeat split; try congruence.
  rewrite B5, A5, A4, <- app_assoc. by rewrite replicate_add.
Qed.

Lemma ev_loop_oneshot_runs blk sl s s1 :
  ev_loop_oneshot blk sl s = Some s1 →
  loop_runs (trace s1) = loop_runs (trace s) ++ [ev_loop (sel s)] ∧
  ev_loop (sel s1) = ev_loop (sel s) ∧
  pipe s1 = (if (wakeup_fires (sl_events sl) =? 0)%nat then pipe s else 0%nat).
Proof.
  unfold ev_loop_oneshot. intros E.
  destruct (dispatch_trace _ _ _ _ E) as (rs & Ht & Hrs).
  destruct (dispatch_outside _ _ _ _ E) as (_ & El & _).
  destruct (dispatch_wakeup_state _ _ _ _ E) as [_ Ep].
  split; [|split; [done|done]].
  rewrite Ht. simpl. rewrite !loop_runs_app, (loop_runs_reads rs Hrs). simpl.
  by rewrite app_nil_r.
Qed.

Lemma quiet_poll blk timeout t0 sl rest s :
  slice_quiet timeout t0 sl → timeout_ok timeout →
  selecting (sel s) = true → ready_count (sel s) = 0 →
  (blk = false → is_Some (ready_array (sel s))) →
  ∃ s1, busy_wait blk timeout t0 (sl :: rest) s = busy_wait blk timeout t0 rest s1 ∧
        polled 1 s s1.
Proof.
  intros (Hw & Hio & Hclock) Hok Hs Hc Hra. simpl. rewrite Hs, Hc. simpl.
  destruct (ev_loop_oneshot_defined blk sl s Hra) as [s' E]. rewrite E.
  destruct (ev_loop_oneshot_runs _ _ _ _ E) as (Hruns & Hloop & Hpipe).
  pose proof (ev_loop_oneshot_wakeup_state _ _ _ _ E) as Hsel.
  assert (run_post blk s s' []) as (_ & Hcount & Hrep).
  { rewrite <- Hio. apply (ev_loop_oneshot_post _ _ _ _ E); rewrite ?Hio, Hc;
      simpl; unfold INT_MAX; lia. }
  rewrite Hw in Hpipe, Hsel. simpl in Hpipe, Hsel, Hcount.
  assert (polled 1 s s') as Hp.
  { unfold polled. simpl. repeat split; try done; try lia.
    - destruct blk; destruct Hrep as [_ ->]; [done|]. apply fmap_app_nil.
    - destruct blk; destruct Hrep as [-> _]; [by rewrite app_nil_r|done]. }
  destruct Hok as [->|[t Ht]]; [by exists s'|].
  specialize (Hclock t Ht).
  exists (emit (E_ev_now (ev_loop (sel s')) (sl_now sl)) s'). split.
  - destruct timeout; simpl in *; try done; injection Ht as <-; by rewrite Hclock.
  - replace 1%nat with (1 + 0)%nat by done.
    eapply polled_trans; [exact Hp|].
    unfold polled. simpl. rewrite loop_runs_app. simpl. by rewrite !app_nil_r.
Qed.

Lemma quiet_polls blk timeout t0 qs rest s :
  Forall (slice_quiet timeout t0) qs → timeout_ok timeout →
  selecting (sel s) = true → ready_count (sel s) = 0 →
  (blk = false → is_Some (ready_array (sel s))) →
  ∃ s1, busy_wait blk timeout t0 (qs ++ rest) s = busy_wait blk timeout t0 rest s1 ∧
        polled (length qs) s s1.
Proof.
  intros Hq Hok. revert s. induction Hq as [|sl qs Hsl _ IH]; intros s Hs Hc Hra.
  - exists s. split; [done|apply polled_refl].
  - destruct (quiet_poll blk timeout t0 sl (qs ++ rest) s Hsl Hok Hs Hc Hra)
      as (s1 & E1 & P1).
    pose proof P1 as (A1 & A2 & A3 & _).
    destruct (IH s1) as (s2 & E2 & P2); [congruence|congruence| |].
    { rewrite A3. exact Hra. }
    exists s2. split.
    + rewrite <- app_comm_cons. by rewrite E1.
    + change (length (sl :: qs)) with (1 + length qs)%nat. by eapply polled_trans.
Qed.

Lemma ending_poll blk timeout t0 sl rest s :
  slice_ends timeout t0 sl → timeout_ok timeout →
  selecting (sel s) = true → ready_count (sel s) = 0 →
  (blk = false → is_Some (ready_array (sel s))) →
  Z.of_nat (length (io_monitors (sl_events sl))) ≤ INT_MAX →
  ∃ s1 s2,
    ev_loop_oneshot blk sl s = Some s1 ∧
    busy_wait blk timeout t0 (sl :: rest) s = Return tt s2 ∧
    (s2 = s1 ∨ s2 = emit (E_ev_now (ev_loop (sel s1)) (sl_now sl)) s1).
Proof.
  intros Hends Hok Hs Hc Hra Hmax. simpl. rewrite Hs, Hc. simpl.
  destruct (ev_loop_oneshot_defined blk sl s Hra) as [s1 E]. rewrite E.
  exists s1.
  pose proof (ev_loop_oneshot_wakeup_state _ _ _ _ E) as Hsel.
  pose proof (ev_loop_oneshot_post _ _ _ _ E) as Hpost.
  destruct Hpost as (_ & Hcount & _); [lia | lia |]. rewrite Hc in Hcount.
  (* unless the clock ends the wait, the loop condition does *)
  assert ((EvWakeup ∈ sl_events sl ∨ io_monitors (sl_events sl) ≠ []) →
          selecting (sel s1) && (ready_count (sel s1) =? 0) = false) as Hstop.
  { intros [Hw|Hio].
    - apply wakeup_fires_pos in Hw. rewrite Hsel.
      by destruct (wakeup_fires (sl_events sl)); [lia|].
    - rewrite Hcount. destruct (io_monitors (sl_events sl)); [done|].
      apply andb_false_intro2, Z.eqb_neq. simpl length. lia. }
  destruct Hok as [->|[t Ht]].
  - exists s1. split; [done|]. split; [|by left].
    apply busy_wait_stops, Hstop.
    destruct Hends as [?|[?|(t & Hne & _)]]; auto.
  - exists (emit (E_ev_now (ev_loop (sel s1)) (sl_now sl)) s1).
    split; [done|]. split; [|by right].
    destruct timeout; simpl in Ht; try done; injection Ht as <-; simpl;
      match goal with |- context [dbl_ge ?a ?b] => destruct (dbl_ge a b) eqn:Hge end;
      try done; apply busy_wait_stops; simpl; apply Hstop;
      destruct Hends as [?|[?|(t & _ & Ht & Hge')]]; auto;
      simpl in Ht; injection Ht as <-; congruence.
Qed.

(** X7.  In the polling build, on an idle selector: as long as slices go by
    in which nothing fires and the timeout has not elapsed, [select] keeps
    polling; it comes back right after the first slice in which the wakeup
    watcher or a Monitor fires or after which the clock shows the timeout
    elapsed, having called [ev_loop] once per slice up to that one and no
    more.  It answers nil when no Monitor fired in that slice (a timeout or
    a wakeup), the count or the Array of that slice's Monitors otherwise,
    and the wakeup pipe is empty if the wakeup watcher fired.  The block is
    one that returns, and fewer than 2^31 Monitors fire in that slice. *)
Theorem polling_select_stops_at_first_ending_slice blk timeout start qs sl rest st :
  idle st → timeout_ok timeout →
  Forall (slice_quiet timeout start) qs →
  slice_ends timeout start sl →
  Z.of_nat (length (io_monitors (sl_events sl))) ≤ INT_MAX →
  ∃ st',
    NIO_Selector_select_synchronized GREEN_THREADS blk timeout
      (mkEngine start (qs ++ sl :: rest)) st
    = Return (select_value blk (io_monitors (sl_events sl))) st' ∧
    loop_runs (trace st')
    = loop_runs (trace st) ++ replicate (S (length qs)) (ev_loop (sel st)) ∧
    pipe st' = (if (wakeup_fires (sl_events sl) =? 0)%nat then pipe st else 0%nat) ∧
    yielded st' = yielded st ++ (if blk then io_monitors (sl_events sl) else []) ∧
    ready_array (sel st') = None.
Proof.
  intros [Hc Hra] Hok Hq Hends Hmax.
  unfold NIO_Selector_select_synchronized, NIO_Selector_run. simpl.
  set (st0 := if blk then st else with_sel (set_ready_array (Some [])) st).
  set (s0 := emit (E_ev_timer_start (ev_loop (sel st0)) BUSYWAIT_INTERVAL)
               (emit (E_ev_now (ev_loop (sel st0)) start)
                  (with_sel (set_selecting true) st0))).
  assert (ready_count (sel s0) = 0) as Hc0 by (by destruct blk).
  assert (ready_array (sel s0) = if blk then None else Some []) as Hra0
    by (by destruct blk).
  assert (ev_loop (sel s0) = ev_loop (sel st)) as Hl0 by (by destruct blk).
  assert (loop_runs (trace s0) = loop_runs (trace st)) as Hr0.
  { subst s0. simpl. rewrite !loop_runs_app. simpl. rewrite !app_nil_r.
    by destruct blk. }
  assert (pipe s0 = pipe st ∧ yielded s0 = yielded st) as [Hp0 Hy0]
    by (by destruct blk).
  destruct (quiet_polls blk timeout start qs (sl :: rest) s0 Hq Hok)
    as (s1 & E1 & (P1 & P2 & P3 & P4 & P5 & P6 & P7)); [done|done| |].
  { intros ->. rewrite Hra0. by eexists. }
  destruct (ending_poll blk timeout start sl rest s1 Hends Hok)
    as (s1' & s2 & Eo & E2 & Hs2); [by rewrite P1|congruence| |done|].
  { intros ->. rewrite P3, Hra0. by eexists. }
  rewrite E1, E2. simpl. unfold run_finish. simpl.
  destruct (ev_loop_oneshot_runs _ _ _ _ Eo) as (Hruns & Hloop & Hpipe).
  destruct (ev_loop_oneshot_post _ _ _ _ Eo) as (_ & Hcount & Hrep); [lia|lia|].
  assert (sel s2 = sel s1' ∧ pipe s2 = pipe s1' ∧ yielded s2 = yielded s1' ∧
          loop_runs (trace s2) = loop_runs (trace s1')) as (Es & Ep & Ey & Er).
  { destruct Hs2 as [->| ->]; simpl; [done|].
    rewrite loop_runs_app. simpl. by rewrite app_nil_r. }
  assert (ready_count (sel s2) = Z.of_nat (length (io_monitors (sl_events sl)))) as Hrc
    by (rewrite Es, Hcount, P2, Hc0; lia).
  assert (ready_array (sel s2)
          = if blk then None else Some (io_monitors (sl_events sl))) as Hra2.
  { rewrite Es. destruct blk; destruct Hrep as [_ ->]; rewrite P3, Hra0; done. }
  assert (loop_runs (trace s2 ++ [E_ev_timer_stop (ev_loop (sel s2))])
          = loop_runs (trace st) ++ ev_loop (sel st) :: replicate (length qs) (ev_loop (sel st)))
    as Hfinal.
  { rewrite loop_runs_app. simpl. rewrite app_nil_r.
    rewrite Er, Hruns, P5, Hr0, P4, Hl0, <- app_assoc.
    f_equal. by rewrite replicate_cons_app. }
  assert (yielded s2 = yielded st ++ (if blk then io_monitors (sl_events sl) else []))
    as Hy.
  { rewrite Ey. destruct blk; destruct Hrep as [-> _]; rewrite P7, Hy0;
      [done|by rewrite app_nil_r]. }
  assert (pipe s2 = (if (wakeup_fires (sl_events sl) =? 0)%nat then pipe st else 0%nat))
    as Hp by (by rewrite Ep, Hpipe, P6, Hp0).
  rewrite Hrc, Hra2.
  destruct (io_monitors (sl_events sl)) as [|m ms] eqn:Hms; simpl length.
  - simpl. destruct blk; eexists; (split; [reflexivity|]); simpl; by rewrite ?app_nil_r in *.
  - assert ((0 <? Z.of_nat (S (length ms))) = true) as -> by (apply Z.ltb_lt; lia).
    destruct blk; eexists; (split; [reflexivity|]); simpl; done.
Qed.

Lemma polling_select_stops_at_first_ending_slice_witness :
  idle sample_registered ∧
  timeout_ok (Float (2 # 100)) ∧
  Forall (slice_quiet (Float (2 # 100)) 0) [mkSlice [EvTimer] (1 # 100)] ∧
  slice_ends (Float (2 # 100)) 0 (mkSlice [EvTimer] (2 # 100)) ∧
  ∃ st',
    NIO_Selector_select_synchronized GREEN_THREADS false (Float (2 # 100))
      (mkEngine 0 [mkSlice [EvTimer] (1 # 100); mkSlice [EvTimer] (2 # 100);
                   mkSlice [EvIO 0%nat 1] (3 # 100)])
      sample_registered
    = Return Qnil st' ∧
    loop_runs (trace st') = [1000; 1000].
Proof.
  assert (idle sample_registered) as Hidle by (split; reflexivity).
  assert (timeout_ok (Float (2 # 100))) as Hok by (right; by eexists).
  assert (Forall (slice_quiet (Float (2 # 100)) 0) [mkSlice [EvTimer] (1 # 100)]) as Hq.
  { repeat constructor. intros t [= <-]. reflexivity. }
  assert (slice_ends (Float (2 # 100)) 0 (mkSlice [EvTimer] (2 # 100))) as Hends.
  { right. right. exists (2 # 100). repeat split. discriminate. }
  split; [exact Hidle|]. split; [exact Hok|]. split; [exact Hq|]. split; [exact Hends|].
  destruct (polling_select_stops_at_first_ending_slice false (Float (2 # 100)) 0
              [mkSlice [EvTimer] (1 # 100)] (mkSlice [EvTimer] (2 # 100))
              [mkSlice [EvIO 0%nat 1] (3 # 100)] sample_registered
              Hidle Hok Hq Hends ltac:(by vm_compute))
    as (st' & E & Hruns & _).
  exists st'. split; [exact E | exact Hruns].
Defined.

(** X8.  In the blocking build, on an idle selector, [select] calls
    [ev_loop] exactly once: it answers from what fired during that call
    (nil when only the timer or the wakeup watcher fired, the count or the
    Array otherwise), with the wakeup pipe emptied if the wakeup watcher
    fired; and when libev never comes back, neither does [select].  The
    block is one that returns, and fewer than 2^31 Monitors fire in the
    call. *)
Theorem blocking_select_runs_loop_once blk timeout start st :
  idle st → timeout_ok timeout →
  (∀ sl rest,
     Z.of_nat (length (io_monitors (sl_events sl))) ≤ INT_MAX →
     ∃ st',
       NIO_Selector_select_synchronized HAVE_RB_THREAD_BLOCKING_REGION blk timeout
         (mkEngine start (sl :: rest)) st
       = Return (select_value blk (io_monitors (sl_events sl))) st' ∧
       loop_runs (trace st') = loop_runs (trace st) ++ [ev_loop (sel st)] ∧
       pipe st' = (if (wakeup_fires (sl_events sl) =? 0)%nat then pipe st else 0%nat) ∧
       yielded st' = yielded st ++ (if blk then io_monitors (sl_events sl) else []) ∧
       ready_array (sel st') = None) ∧
  (∃ s, NIO_Selector_select_synchronized HAVE_RB_THREAD_BLOCKING_REGION blk timeout
          (mkEngine start []) st = Wait s ∧
        loop_runs (trace s) = loop_runs (trace st)).
Proof.
  intros [Hc Hra] Hok.
  set (st0 := if blk then st else with_sel (set_ready_array (Some [])) st).
  (* whichever way the timer is set before the loop runs *)
  assert (∀ e, loop_runs [e] = [] →
    let s0 := emit e (with_sel (set_selecting true) st0) in
    (∀ sl, Z.of_nat (length (io_monitors (sl_events sl))) ≤ INT_MAX →
       ∃ s2, ev_loop_oneshot blk sl s0 = Some s2 ∧
         ∃ st',
           (if 0 <? ready_count (sel s2) then
              if blk then Return (Fixnum (ready_count (sel s2)))
                            (with_sel (set_selecting false)
                               (with_sel (set_ready_count 0) s2))
              else Return (match ready_array (sel s2) with
                           | Some a => Ary a | None => Qnil end)
                          (with_sel (set_ready_array None)
                             (with_sel (set_selecting false)
                                (with_sel (set_ready_count 0) s2)))
            else Return Qnil (with_sel (set_ready_array None)
                                (with_sel (set_selecting false)
                                   (with_sel (set_ready_count 0) s2))))
           = Return (select_value blk (io_monitors (sl_events sl))) st' ∧
           loop_runs (trace st') = loop_runs (trace st) ++ [ev_loop (sel st)] ∧
           pipe st' = (if (wakeup_fires (sl_events sl) =? 0)%nat then pipe st else 0%nat) ∧
           yielded st' = yielded st ++ (if blk then io_monitors (sl_events sl) else []) ∧
           ready_array (sel st') = None) ∧
    loop_runs (trace s0) = loop_runs (trace st)) as Hgo.
  { intros e He s0.
    assert (loop_runs (trace s0) = loop_runs (trace st)) as Hr0.
    { subst s0 st0. simpl. rewrite loop_runs_app, He, app_nil_r. by destruct blk. }
    split; [|exact Hr0]. intros sl Hmax.
    assert (ready_count (sel s0) = 0) as Hc0 by (by destruct blk).
    assert (ready_array (sel s0) = if blk then None else Some []) as Hra0
      by (by destruct blk).
    assert (ev_loop (sel s0) = ev_loop (sel st) ∧ pipe s0 = pipe st ∧
            yielded s0 = yielded st) as (Hl0 & Hp0 & Hy0) by (by destruct blk).
    destruct (ev_loop_oneshot_defined blk sl s0) as [s2 Eo].
    { intros ->. rewrite Hra0. by eexists. }
    exists s2. split; [done|].
    destruct (ev_loop_oneshot_runs _ _ _ _ Eo) as (Hruns & Hloop & Hpipe).
    destruct (ev_loop_oneshot_post _ _ _ _ Eo) as (_ & Hcount & Hrep); [lia|lia|].
    assert (ready_count (sel s2) = Z.of_nat (length (io_monitors (sl_events sl)))) as Hrc
      by (rewrite Hcount, Hc0; lia).
    assert (ready_array (sel s2)
            = if blk then None else Some (io_monitors (sl_events sl))) as Hra2.
    { destruct blk; destruct Hrep as [_ ->]; rewrite Hra0; done. }
    assert (yielded s2 = yielded st ++ (if blk then io_monitors (sl_events sl) else []))
      as Hy.
    { destruct blk; destruct Hrep as [-> _]; rewrite Hy0; [done|by rewrite app_nil_r]. }
    rewrite Hr0, Hl0 in Hruns. rewrite Hp0 in Hpipe.
    rewrite Hrc, Hra2.
    destruct (io_monitors (sl_events sl)) as [|m ms] eqn:Hms; simpl length.
    - simpl. destruct blk; eexists; (split; [reflexivity|]); simpl;
        by rewrite ?app_nil_r in *.
    - assert ((0 <? Z.of_nat (S (length ms))) = true) as -> by (apply Z.ltb_lt; lia).
      destruct blk; eexists; (split; [reflexivity|]); simpl; done. }
  unfold NIO_Selector_select_synchronized, NIO_Selector_run. fold st0. simpl.
  split.
  - intros sl rest Hmax.
    destruct Hok as [->|[t Ht]].
    + destruct (Hgo (E_ev_timer_stop (ev_loop (sel st0))) eq_refl) as [H _].
      destruct (H sl Hmax) as (s2 & Eo & Hres). simpl in Eo.
      simpl. rewrite Eo. exact Hres.
    + destruct (Hgo (E_ev_timer_again (ev_loop (sel st0)) (t + (1 # 10000))%Q) eq_refl)
        as [H _].
      destruct (H sl Hmax) as (s2 & Eo & Hres). simpl in Eo.
      destruct timeout; simpl in Ht; try done; injection Ht as <-;
        simpl; rewrite Eo; exact Hres.
  - destruct Hok as [->|[t Ht]].
    + destruct (Hgo (E_ev_timer_stop (ev_loop (sel st0))) eq_refl) as [_ H].
      simpl. eexists. split; [reflexivity|exact H].
    + destruct (Hgo (E_ev_timer_again (ev_loop (sel st0)) (t + (1 # 10000))%Q) eq_refl)
        as [_ H].
      destruct timeout; simpl in Ht; try done; injection Ht as <-;
        simpl; eexists; (split; [reflexivity|exact H]).
Qed.

Lemma blocking_select_runs_loop_once_witness :
  idle sample_registered ∧ timeout_ok (Fixnum 1) ∧
  ∃ st',
    NIO_Selector_select_synchronized HAVE_RB_THREAD_BLOCKING_REGION true (Fixnum 1)
      (mkEngine 0 [mkSlice [EvWakeup; EvIO 0%nat 1] 0]) (wakeups 2 sample_registered)
    = Return (Fixnum 1) st' ∧
    pipe st' = 0%nat.
Proof.
  assert (idle (wakeups 2 sample_registered)) as Hidle by (split; reflexivity).
  assert (timeout_ok (Fixnum 1)) as Hok by (right; by eexists).
  split; [split; reflexivity|]. split; [exact Hok|].
  destruct (blocking_select_runs_loop_once true (Fixnum 1) 0
              (wakeups 2 sample_registered) Hidle Hok) as [H _].
  destruct (H (mkSlice [EvWakeup; EvIO 0%nat 1] 0) [] ltac:(by vm_compute))
    as (st' & E & _ & Hp & _).
  exists st'. split; [exact E | exact Hp].
Defined.

(** ** Draining, byte by byte *)

Lemma drain_reads_all fd n tr :
  ∃ rs, (drain fd n tr).2 = tr ++ rs ∧
        bytes_read rs = n ∧
        Forall (is_read_of fd) rs ∧
        last rs = Some (E_read fd (-1)) ∧
        length rs = S ((n + 127) / 128).
Proof.
  funelim (drain fd n tr); simp drain.
  - exists [E_read fd (-1)]. repeat split; try done.
    repeat constructor. simpl. lia.
  - destruct H as (rs & -> & Hb & Hf & Hlast & Hlen).
    exists (E_read fd (Z.of_nat (Nat.min (S m) 128)) :: rs).
    split; [by rewrite <- app_assoc|]. split; [|split; [|split]].
    + simpl. rewrite Nat2Z.id, Hb. lia.
    + constructor; [|done]. simpl. split; [done|]. lia.
    + destruct rs; [done|]. exact Hlast.
    + assert (((S m - Nat.min (S m) 128 + 127) / 128 + 1
               = (S m + 127) / 128)%nat) as Hdiv.
      { destruct (le_lt_dec (S m) 128) as [Hle|Hgt].
        - rewrite Nat.min_l by done. rewrite Nat.sub_diag.
          rewrite (Nat.div_small (0 + 127) 128) by lia.
          apply (Nat.div_unique (S m + 127) 128 1 m); lia.
        - rewrite Nat.min_r by lia.
          assert ((S m + 127 = (S m - 128 + 127) + 1 * 128)%nat) as E by lia.
          symmetry. rewrite E. apply Nat.div_add. done. }
      cbn [length]. rewrite Hlen, <- Hdiv. lia.
Qed.

(** X9.  The wakeup callback takes out of the pipe exactly the bytes that
    wait there, by reads of at most 128 bytes on the read end, as many as
    it takes and one more: the last read finds the pipe empty and ends the
    loop.  A pipe of [n] bytes costs [ceil (n / 128) + 1] reads. *)
Theorem wakeup_callback_reads_every_byte st :
  ∃ rs, trace (NIO_Selector_wakeup_callback st) = trace st ++ rs ∧
        bytes_read rs = pipe st ∧
        Forall (is_read_of (wakeup_reader (sel st))) rs ∧
        last rs = Some (E_read (wakeup_reader (sel st)) (-1)) ∧
        length rs = S ((pipe st + 127) / 128) ∧
        pipe (NIO_Selector_wakeup_callback st) = 0%nat.
Proof.
  destruct (drain_reads_all (wakeup_reader (sel st)) (pipe st) (trace st))
    as (rs & Ht & Hb & Hf & Hlast & Hlen).
  exists rs. repeat split; try done. apply drain_empties.
Qed.

(** ** Assertions *)

Lemma ev_loop_oneshot_array blk sl s s' :
  ev_loop_oneshot blk sl s = Some s' →
  (blk = false → is_Some (ready_array (sel s))) →
  (blk = false → is_Some (ready_array (sel s'))).
Proof.
  unfold ev_loop_oneshot. intros E Hra ->.
  pose proof (dispatch_reported _ _ _ _ E) as [_ Hr]. rewrite Hr. simpl.
  destruct (Hra eq_refl) as [a ->]. by eexists.
Qed.

Lemma busy_wait_no_abort blk timeout t0 slices s :
  (blk = false → is_Some (ready_array (sel s))) →
  busy_wait blk timeout t0 slices s ≠ Abort.
Proof.
  revert s. induction slices as [|sl slices IH]; intros s Hra; simpl;
    destruct (selecting (sel s) && (ready_count (sel s) =? 0)); try done.
  destruct (ev_loop_oneshot_defined blk sl s Hra) as [s1 E]. rewrite E.
  pose proof (ev_loop_oneshot_array _ _ _ _ E Hra) as Hra1.
  destruct timeout; simpl; try done; try (by apply IH);
    match goal with |- context [dbl_ge ?a ?b] => destruct (dbl_ge a b) end;
    try done; by apply IH.
Qed.

Lemma select_synchronized_no_abort cfg blk timeout env st :
  NIO_Selector_select_synchronized cfg blk timeout env st ≠ Abort.
Proof.
  unfold NIO_Selector_select_synchronized.
  set (st0 := if blk then st else with_sel (set_ready_array (Some [])) st).
  assert (blk = false → is_Some (ready_array (sel st0))) as Hra0
    by (intros ->; by eexists).
  assert (NIO_Selector_run cfg blk timeout env st0 ≠ Abort) as Hrun.
  { unfold NIO_Selector_run. destruct cfg.
    - assert (∀ e,
        match ev_slices env with
        | [] => Wait (emit e (with_sel (set_selecting true) st0))
        | sl :: _ =>
            match ev_loop_oneshot blk sl (emit e (with_sel (set_selecting true) st0)) with
            | Some st2 => run_finish st2
            | None => Abort
            end
        end ≠ Abort) as Hgo.
      { intros e. destruct (ev_slices env) as [|sl ?]; [done|].
        by destruct (ev_loop_oneshot_defined blk sl
                       (emit e (with_sel (set_selecting true) st0)) Hra0) as [s2 ->]. }
      destruct timeout; simpl; try done; apply Hgo.
    - match goal with
      | |- context [busy_wait ?b ?t ?s ?sl ?x] =>
          pose proof (busy_wait_no_abort b t s sl x Hra0) as Hb;
          destruct (busy_wait b t s sl x)
      end; done. }
  destruct (NIO_Selector_run cfg blk timeout env st0) as [ready s1| | | |]; try done.
  by destruct (0 <? ready); [destruct blk|].
Qed.

Lemma synchronize_no_abort me func st :
  (∀ s, func s ≠ Abort) → NIO_Selector_synchronize me func st ≠ Abort.
Proof.
  intros Hf. unfold NIO_Selector_synchronize.
  destruct (decide (lock_holder st ≠ Some me)).
  - unfold Mutex_lock.
    destruct (lock st) as [owner|]; [by destruct (decide (owner = me))|].
    unfold rb_ensure.
    match goal with |- context [func ?s] =>
      specialize (Hf s); destruct (func s) as [v s1|e s1|s1| |s1]
    end; try done.
    all: unfold NIO_Selector_unlock, Mutex_unlock; simpl;
      destruct (lock s1) as [o|]; [destruct (decide (o = me))|]; done.
  - specialize (Hf st). by destruct (func st).
Qed.

(** X10.  The assertion in the Monitor callback guards a real case: called
    with no block and no pending Array, the callback aborts the process,
    and with a block it never does.  No method of the selector can bring
    that case about: whatever the state, the arguments and what libev
    reports, no call ends in a failed assertion. *)
Theorem assertions_hold_in_every_call :
  (∀ m revents st,
     NIO_Selector_monitor_callback false m revents st = None
     ↔ ready_array (sel st) = None) ∧
  (∀ m revents st, NIO_Selector_monitor_callback true m revents st ≠ None) ∧
  (∀ cfg me c st, perform cfg me c st ≠ Abort).
Proof.
  split; [|split].
  - intros m r st. unfold NIO_Selector_monitor_callback. simpl.
    by destruct (ready_array (sel st)).
  - done.
  - intros cfg me c st. destruct c as [io i|io|io|blk timeout env| | |]; simpl; try done.
    + apply synchronize_no_abort. intros s.
      unfold NIO_Selector_register_synchronized. by destruct (selectables s !! io).
    + apply synchronize_no_abort. intros s.
      unfold NIO_Selector_deregister_synchronized. by destruct (selectables s !! io).
    + assert (NIO_Selector_synchronize me
                (NIO_Selector_select_synchronized cfg blk timeout env) st ≠ Abort) as Hgo
        by (apply synchronize_no_abort; intros s; apply select_synchronized_no_abort).
      unfold NIO_Selector_select.
      destruct timeout; simpl; try done; by destruct (dbl_neg _).
    + unfold NIO_Selector_wakeup. by destruct (closed (sel st)).
Qed.

(** ** Quiescence *)

Lemma back_in_and {A} (P Q : state → Prop) (r : result A) :
  back_in P r → back_in Q r → back_in (λ s, P s ∧ Q s) r.
Proof. by destruct r. Qed.



(** ** Who writes the table *)

Lemma same_registrations_callback st blk e s s' :
  callback blk e s = Some s' → same_registrations st s → same_registrations st s'.
Proof.
  intros H [Hs Hm].
  assert (∀ m r m0,
            Monitor_set_revents 0 <$> alter (Monitor_set_revents r) m (monitors s) !! m0
            = Monitor_set_revents 0 <$> monitors st !! m0) as Halter.
  { intros m r m0. rewrite <- Hm. destruct (decide (m = m0)) as [->|Hne].
    - rewrite lookup_alter_eq. by destruct (monitors s !! m0).
    - by rewrite lookup_alter_ne. }
  unfold same_registrations.
  destruct e as [m r| |]; simpl in H.
  - unfold NIO_Selector_monitor_callback in H. simpl in H.
    destruct blk; [|destruct (ready_array (sel s)); [|done]];
      injection H as <-; split; simpl; auto.
  - injection H as <-. by split.
  - injection H as <-. by split.
Qed.

(** X12.  Only [register] and [deregister] write the table.  [select],
    [wakeup], [close], [closed?] and [registered?] leave every handle
    registered as it was, and of the Monitors they change nothing but the
    readiness flags [select] records: in particular [close] deregisters
    nothing and closes no Monitor; handles stay registered on a closed
    selector. *)
Theorem only_register_and_deregister_write_the_table cfg me c st :
  not_table_update c →
  ends_in (same_registrations st) (perform cfg me c st) ∧
  (∀ io, ends_in (λ s, NIO_Selector_is_registered io s
                       = match NIO_Selector_is_registered io st with
                         | Return v _ => Return v s
                         | r => r
                         end)
                 (perform cfg me c st)).
Proof.
  intros Hc.
  assert (ends_in (same_registrations st) (perform cfg me c st)) as Hsame.
  { assert (same_registrations st st) as Hrefl by (by split).
    destruct c as [io i|io|io|blk timeout env| | |]; try done; simpl.
    - apply select_preserves; try done.
      intros b e s s'. apply same_registrations_callback.
    - unfold NIO_Selector_wakeup. by destruct (closed (sel st)).
    - unfold NIO_Selector_shutdown.
      destruct (ev_loop (sel st) =? 0); simpl; by destruct (closed (sel st)). }
  split; [exact Hsame|].
  intros io. eapply ends_in_impl; [|exact Hsame].
  intros s [Hs _]. unfold NIO_Selector_is_registered. by rewrite Hs.
Qed.

Lemma only_register_and_deregister_write_the_table_witness :
  not_table_update call_close ∧
  ends_in (same_registrations sample_registered)
          (perform GREEN_THREADS 7%nat call_close sample_registered) ∧
  NIO_Selector_is_registered 10%nat (NIO_Selector_shutdown sample_registered)
  = Return Qtrue (NIO_Selector_shutdown sample_registered).
Proof.
  split; [exact I|].
  destruct (only_register_and_deregister_write_the_table GREEN_THREADS 7%nat call_close
              sample_registered I) as [H1 H2].
  split; [exact H1 | exact (H2 10%nat)].
Defined.

(** * Blocks that raise, pipes that are full *)

(** ** A block that returns is the block of [block_given = true] *)









(** ** Quiescence between calls *)


